(** * The Konami Code detector of [assets/js/main.js]

    A shallow embedding of the [KonamiCode] class (lines 340-597 of
    [src/assets/js/main.js]) together with the small part of the browser it
    talks to: the key-press and gamepad events, the [setInterval] poll loop,
    the [setTimeout] that ends the cooldown, and [Audio.play()].

    The object's fields are a record, every method is a function from world
    to world, and the browser's answers that the code cannot control (does
    [new Audio()] succeed, what does the n-th [play()] do, which gamepads
    does [navigator.getGamepads()] report) are inputs of the model. *)

From Stdlib Require Import ZArith NArith List String Bool Lia.
From stdpp Require Import base gmap strings list.
Import ListNotations.

Local Open Scope string_scope.

(** ** JavaScript values the code handles *)

Module Js.

(** What [gamepad.buttons[i]?.pressed] evaluates to: a boolean, or
    [undefined] when the button does not exist. *)
Inductive Val : Type :=
| Undefined
| Bool (b : bool).

Definition truthy (v : Val) : bool :=
  match v with
  | Bool true => true
  | _ => false
  end.

(** [a || b] *)
Definition or (a b : Val) : Val := if truthy a then a else b.

(** [o[key]] on an object used as a dictionary: a missing key reads as
    [undefined]. *)
Definition prop (o : gmap string Val) (key : string) : Val :=
  match o !! key with
  | Some v => v
  | None => Undefined
  end.

(** [k === a[n]] for a string [k] and an array of strings: an index out of
    range reads as [undefined], which equals no string. *)
Definition strict_eq (k : string) (e : option string) : bool :=
  match e with
  | Some s => String.eqb k s
  | None => false
  end.

(** [a[i]] for a number [i] that need not be a valid index. *)
Definition index {A : Type} (a : list A) (i : Z) : option A :=
  if (i <? 0)%Z then None else a !! Z.to_nat i.

End Js.

(** ** The browser *)

(** One entry of [navigator.getGamepads()]: the [pressed] level of each of
    its buttons. *)
Record Gamepad : Type := { buttons : list bool }.

(** What a call of [audio.play()] does: it returns a promise that resolves,
    a promise that rejects, or it throws synchronously (which is also what
    [play().catch] amounts to where [play()] returns no promise). *)
Inductive PlayOutcome : Type := PlayResolves | PlayRejects | PlayThrows.

Record Browser : Type := {
  audioCtor : bool;                 (* does [new Audio()] succeed *)
  playOutcome : nat -> PlayOutcome  (* what the n-th [play()] call does *)
}.

(** The [Audio] element, as far as the code sets it up. *)
Record Audio : Type := {
  preload : string;
  src : string;
  volumePercent : Z;   (* [volume = 0.7] *)
  currentTime : Z
}.

(** Observable happenings, newest first in the trace. [Press], [Match] and
    [Play] are ghost events marking a call of [handleControllerInput] from
    the poller, a call of [playKonamiAudio] (the sequence was completed) and
    a call of [audio.play()]. *)
Inductive Event : Type :=
| ConsoleLog (msg : string) (index : Z)
| ConsoleWarn (msg : string)
| Press (button : string)
| Match
| Play.

(** ** The object *)

Definition sequence : list string :=
  ["ArrowUp"; "ArrowUp"; "ArrowDown"; "ArrowDown";
   "ArrowLeft"; "ArrowRight"; "ArrowLeft"; "ArrowRight";
   "KeyB"; "KeyA"].

Definition wasdSequence : list string :=
  ["KeyW"; "KeyW"; "KeyS"; "KeyS";
   "KeyA"; "KeyD"; "KeyA"; "KeyD";
   "KeyB"; "KeyA"].

Definition controllerSequence : list string :=
  ["up"; "up"; "down"; "down";
   "left"; "right"; "left"; "right";
   "b"; "a"].

Definition audioUrl : string :=
  "https://www.myinstants.com/media/sounds/lissan-al-gaib.mp3".

Record KonamiCode : Type := {
  currentSequence : list string;
  audio : option Audio;                    (* [null] or the element *)
  hasPlayedThisSession : bool;
  gamepadIndex : Z;
  previousButtonStates : gmap string Js.Val;
  previousDpadStates : gmap string Js.Val;
  gamepadPolling : option positive         (* [undefined]/[null] or the interval handle *)
}.

(** The object together with the browser state its closures live in. *)
Record World : Type := {
  self : KonamiCode;
  clock : N;                   (* milliseconds *)
  timeouts : list N;           (* deadlines of the pending [setTimeout] callbacks,
                                   each of which is [hasPlayedThisSession = false] *)
  intervals : list positive;   (* live [setInterval] handles, each running [pollGamepad] *)
  nextHandle : positive;
  plays : nat;                 (* calls of [play()] so far *)
  trace : list Event
}.

(** *** Field updates *)

Definition set_currentSequence (v : list string) (k : KonamiCode) : KonamiCode :=
  {| currentSequence := v; audio := audio k;
     hasPlayedThisSession := hasPlayedThisSession k;
     gamepadIndex := gamepadIndex k;
     previousButtonStates := previousButtonStates k;
     previousDpadStates := previousDpadStates k;
     gamepadPolling := gamepadPolling k |}.

Definition set_audio (v : option Audio) (k : KonamiCode) : KonamiCode :=
  {| currentSequence := currentSequence k; audio := v;
     hasPlayedThisSession := hasPlayedThisSession k;
     gamepadIndex := gamepadIndex k;
     previousButtonStates := previousButtonStates k;
     previousDpadStates := previousDpadStates k;
     gamepadPolling := gamepadPolling k |}.

Definition set_hasPlayedThisSession (v : bool) (k : KonamiCode) : KonamiCode :=
  {| currentSequence := currentSequence k; audio := audio k;
     hasPlayedThisSession := v;
     gamepadIndex := gamepadIndex k;
     previousButtonStates := previousButtonStates k;
     previousDpadStates := previousDpadStates k;
     gamepadPolling := gamepadPolling k |}.

Definition set_gamepadIndex (v : Z) (k : KonamiCode) : KonamiCode :=
  {| currentSequence := currentSequence k; audio := audio k;
     hasPlayedThisSession := hasPlayedThisSession k;
     gamepadIndex := v;
     previousButtonStates := previousButtonStates k;
     previousDpadStates := previousDpadStates k;
     gamepadPolling := gamepadPolling k |}.

Definition set_previousButtonStates (v : gmap string Js.Val) (k : KonamiCode) : KonamiCode :=
  {| currentSequence := currentSequence k; audio := audio k;
     hasPlayedThisSession := hasPlayedThisSession k;
     gamepadIndex := gamepadIndex k;
     previousButtonStates := v;
     previousDpadStates := previousDpadStates k;
     gamepadPolling := gamepadPolling k |}.

Definition set_gamepadPolling (v : option positive) (k : KonamiCode) : KonamiCode :=
  {| currentSequence := currentSequence k; audio := audio k;
     hasPlayedThisSession := hasPlayedThisSession k;
     gamepadIndex := gamepadIndex k;
     previousButtonStates := previousButtonStates k;
     previousDpadStates := previousDpadStates k;
     gamepadPolling := v |}.

(** [upd f w]: an assignment to a field of [this]. *)
Definition upd (f : KonamiCode -> KonamiCode) (w : World) : World :=
  {| self := f (self w); clock := clock w; timeouts := timeouts w;
     intervals := intervals w; nextHandle := nextHandle w;
     plays := plays w; trace := trace w |}.

Definition emit (e : Event) (w : World) : World :=
  {| self := self w; clock := clock w; timeouts := timeouts w;
     intervals := intervals w; nextHandle := nextHandle w;
     plays := plays w; trace := e :: trace w |}.

(** [setTimeout(() => { this.hasPlayedThisSession = false; }, ms)] *)
Definition setTimeout (ms : N) (w : World) : World :=
  {| self := self w; clock := clock w;
     timeouts := timeouts w ++ [(clock w + ms)%N];
     intervals := intervals w; nextHandle := nextHandle w;
     plays := plays w; trace := trace w |}.

(** [setInterval(() => this.pollGamepad(), 50)]: a fresh handle, now live. *)
Definition setInterval (w : World) : positive * World :=
  (nextHandle w,
   {| self := self w; clock := clock w; timeouts := timeouts w;
      intervals := intervals w ++ [nextHandle w];
      nextHandle := Pos.succ (nextHandle w);
      plays := plays w; trace := trace w |}).

(** [clearInterval(h)]; clearing [null] or [undefined] does nothing. *)
Definition clearInterval (h : option positive) (w : World) : World :=
  match h with
  | None => w
  | Some h =>
      {| self := self w; clock := clock w; timeouts := timeouts w;
         intervals := List.filter (fun h' => negb (Pos.eqb h' h)) (intervals w);
         nextHandle := nextHandle w;
         plays := plays w; trace := trace w |}
  end.

(** The call [audio.play()] itself: one more call made, and noted. *)
Definition called_play (w : World) : World :=
  {| self := self w; clock := clock w; timeouts := timeouts w;
     intervals := intervals w; nextHandle := nextHandle w;
     plays := S (plays w); trace := Play :: trace w |}.

(** [a.currentTime = 0] *)
Definition rewound (a : Audio) : Audio :=
  {| preload := preload a; src := src a;
     volumePercent := volumePercent a; currentTime := 0 |}.

(** The outcome of a [try] block: it ran to its end, or it threw. *)
Inductive Completion : Type :=
| Normal (w : World)
| Throw (w : World).

(** [try { body } catch (error) { handler }] *)
Definition tryCatch (body : Completion) (handler : World -> World) : World :=
  match body with
  | Normal w => w
  | Throw w => handler w
  end.

Definition prefixLength (w : World) : nat := length (currentSequence (self w)).

Definition push (s : string) (w : World) : World :=
  upd (set_currentSequence (currentSequence (self w) ++ [s])) w.

Section Methods.

Variable browser : Browser.

(** [preloadAudio()] *)
Definition preloadAudio (w : World) : World :=
  tryCatch
    (if audioCtor browser then
       Normal (upd (set_audio (Some {| preload := "auto"; src := audioUrl;
                                       volumePercent := 70; currentTime := 0 |})) w)
     else Throw w)
    (emit (ConsoleWarn "Could not preload Konami Code audio:")).

(** [resetSequence()] *)
Definition resetSequence (w : World) : World :=
  upd (set_currentSequence []) w.

(** [playKonamiAudio()]. The warning of a rejected promise is written
    when the promise settles; the trace records it at the call. *)
Definition playKonamiAudio (w : World) : World :=
  let w := emit Match w in
  if hasPlayedThisSession (self w) then w
  else
    tryCatch
      (match audio (self w) with
       | Some a =>
           let w := upd (set_audio (Some (rewound a))) w in
           let n := plays w in
           let w := called_play w in
           match playOutcome browser n with
           | PlayThrows => Throw w
           | outcome =>
               let w := match outcome with
                        | PlayRejects =>
                            emit (ConsoleWarn "Could not play Konami Code audio:") w
                        | _ => w
                        end in
               let w := upd (set_hasPlayedThisSession true) w in
               Normal (setTimeout 10000 w)
           end
       | None => Normal w
       end)
      (emit (ConsoleWarn "Error playing Konami Code audio:")).

(** [handleKeyboardInput(keyCode)] *)
Definition handleKeyboardInput (keyCode : string) (w : World) : World :=
  if hasPlayedThisSession (self w) then w
  else
    let expectedKeyArrow := sequence !! prefixLength w in
    let expectedKeyWASD := wasdSequence !! prefixLength w in
    if Js.strict_eq keyCode expectedKeyArrow || Js.strict_eq keyCode expectedKeyWASD then
      let w := push keyCode w in
      if Nat.eqb (prefixLength w) (length sequence) then
        resetSequence (playKonamiAudio w)
      else w
    else
      let w := resetSequence w in
      if Js.strict_eq keyCode (sequence !! 0%nat)
         || Js.strict_eq keyCode (wasdSequence !! 0%nat) then
        push keyCode w
      else w.

(** [handleControllerInput(input)] *)
Definition handleControllerInput (input : string) (w : World) : World :=
  if hasPlayedThisSession (self w) then w
  else
    let expectedInput := controllerSequence !! prefixLength w in
    if Js.strict_eq input expectedInput then
      let w := push input w in
      if Nat.eqb (prefixLength w) (length controllerSequence) then
        resetSequence (playKonamiAudio w)
      else w
    else
      let w := resetSequence w in
      if Js.strict_eq input (controllerSequence !! 0%nat) then push input w
      else w.

(** [checkButtonPress(button, isPressed)] *)
Definition checkButtonPress (button : string) (isPressed : Js.Val) (w : World) : World :=
  let wasPressed :=
    Js.or (Js.prop (previousButtonStates (self w)) button) (Js.Bool false) in
  let w :=
    if Js.truthy isPressed && negb (Js.truthy wasPressed) then
      handleControllerInput button (emit (Press button) w)
    else w in
  upd (set_previousButtonStates (<[button := isPressed]> (previousButtonStates (self w)))) w.

(** [gamepad.buttons[i]?.pressed] *)
Definition pressed (gamepad : Gamepad) (i : nat) : Js.Val :=
  match buttons gamepad !! i with
  | Some p => Js.Bool p
  | None => Js.Undefined
  end.

(** [pollGamepad()], with what [navigator.getGamepads()] returns now. *)
Definition pollGamepad (gamepads : list (option Gamepad)) (w : World) : World :=
  if (gamepadIndex (self w) =? -1)%Z then w
  else
    match mjoin (Js.index gamepads (gamepadIndex (self w))) with
    | None =>
        let w := upd (set_gamepadIndex (-1)) w in
        let w := clearInterval (gamepadPolling (self w)) w in
        upd (set_gamepadPolling None) w
    | Some gamepad =>
        let dpadUp := pressed gamepad 12 in
        let dpadDown := pressed gamepad 13 in
        let dpadLeft := pressed gamepad 14 in
        let dpadRight := pressed gamepad 15 in
        let aButton := pressed gamepad 0 in
        let bButton := pressed gamepad 1 in
        let w := checkButtonPress "up" dpadUp w in
        let w := checkButtonPress "down" dpadDown w in
        let w := checkButtonPress "left" dpadLeft w in
        let w := checkButtonPress "right" dpadRight w in
        let w := checkButtonPress "a" aButton w in
        checkButtonPress "b" bButton w
    end.

(** [startGamepadPolling()] *)
Definition startGamepadPolling (w : World) : World :=
  match gamepadPolling (self w) with
  | Some _ => w
  | None =>
      let '(h, w) := setInterval w in
      upd (set_gamepadPolling (Some h)) w
  end.

(** The loop of [checkExistingGamepads()], from index [i] on. *)
Fixpoint scanGamepads (i : Z) (gamepads : list (option Gamepad)) (w : World) : World :=
  match gamepads with
  | [] => w
  | Some _ :: _ => startGamepadPolling (upd (set_gamepadIndex i) w)
  | None :: rest => scanGamepads (i + 1) rest w
  end.

(** [checkExistingGamepads()] *)
Definition checkExistingGamepads (gamepads : list (option Gamepad)) (w : World) : World :=
  scanGamepads 0 gamepads w.

(** The [gamepadconnected] listener of [setupGamepadListener()]. *)
Definition onGamepadConnected (index : Z) (w : World) : World :=
  let w := emit (ConsoleLog "Xbox controller connected:" index) w in
  let w := upd (set_gamepadIndex index) w in
  startGamepadPolling w.

(** The [gamepaddisconnected] listener of [setupGamepadListener()]. *)
Definition onGamepadDisconnected (index : Z) (w : World) : World :=
  let w := emit (ConsoleLog "Xbox controller disconnected:" index) w in
  if (gamepadIndex (self w) =? index)%Z then upd (set_gamepadIndex (-1)) w
  else w.

(** [setupGamepadListener()]: the two listeners are registered (they are
    [onGamepadConnected] and [onGamepadDisconnected] below), then the
    gamepads already there are scanned. *)
Definition setupGamepadListener (gamepads : list (option Gamepad)) (w : World) : World :=
  checkExistingGamepads gamepads w.

(** [init()]; [setupKeyboardListener()] only registers [handleKeyboardInput]. *)
Definition init (gamepads : list (option Gamepad)) (w : World) : World :=
  let w := preloadAudio w in
  setupGamepadListener gamepads w.

(** [new KonamiCode()] in a fresh page. *)
Definition newKonamiCode (gamepads : list (option Gamepad)) : World :=
  init gamepads
    {| self := {| currentSequence := []; audio := None;
                  hasPlayedThisSession := false;
                  gamepadIndex := -1;
                  previousButtonStates := ∅;
                  previousDpadStates := ∅;
                  gamepadPolling := None |};
       clock := 0; timeouts := []; intervals := []; nextHandle := 1;
       plays := 0; trace := [] |}.

(** *** The event loop *)

(** What can happen to the page. *)
Inductive Stimulus : Type :=
| KeyDown (code : string)
| GamepadConnected (index : Z)
| GamepadDisconnected (index : Z)
| PollTick (gamepads : list (option Gamepad))   (* the 50 ms interval is due *)
| Elapse (ms : N).                              (* time passes *)

(** The callbacks of the timeouts that are due: each clears the flag. *)
Definition runTimeouts (w : World) : World :=
  let due := List.filter (fun d => (d <=? clock w)%N) (timeouts w) in
  let w' :=
    {| self := self w; clock := clock w;
       timeouts := List.filter (fun d => negb (d <=? clock w)%N) (timeouts w);
       intervals := intervals w; nextHandle := nextHandle w;
       plays := plays w; trace := trace w |} in
  match due with
  | [] => w'
  | _ :: _ => upd (set_hasPlayedThisSession false) w'
  end.

Definition advance (ms : N) (w : World) : World :=
  runTimeouts
    {| self := self w; clock := (clock w + ms)%N; timeouts := timeouts w;
       intervals := intervals w; nextHandle := nextHandle w;
       plays := plays w; trace := trace w |}.

(** A due tick runs the callback of every interval that is still live. *)
Definition tick (gamepads : list (option Gamepad)) (w : World) : World :=
  fold_left
    (fun w h => if existsb (Pos.eqb h) (intervals w) then pollGamepad gamepads w else w)
    (intervals w) w.

Definition step (w : World) (s : Stimulus) : World :=
  match s with
  | KeyDown code => handleKeyboardInput code w
  | GamepadConnected index => onGamepadConnected index w
  | GamepadDisconnected index => onGamepadDisconnected index w
  | PollTick gamepads => tick gamepads w
  | Elapse ms => advance ms w
  end.

Definition run (w : World) (l : list Stimulus) : World := fold_left step l w.

End Methods.

(** ** What the claims speak about *)

(** A press as the matcher receives it: a key code from the keyboard
    listener, or a button name from the poller. *)
Inductive Input : Type :=
| Key (code : string)
| Button (name : string).

Definition consume (browser : Browser) (w : World) (i : Input) : World :=
  match i with
  | Key code => handleKeyboardInput browser code w
  | Button name => handleControllerInput browser name w
  end.

Definition feed (browser : Browser) (w : World) (l : list Input) : World :=
  fold_left (consume browser) l w.

(** Does the key code (the button name) equal the pattern at position [n]? *)
Definition keyMatches (keyCode : string) (n : nat) : bool :=
  Js.strict_eq keyCode (sequence !! n) || Js.strict_eq keyCode (wasdSequence !! n).

Definition buttonMatches (input : string) (n : nat) : bool :=
  Js.strict_eq input (controllerSequence !! n).

(** The prefix length one press leads to: [hit] says the press equals the
    pattern at position [n], [first] that it equals the pattern's start. *)
Definition nextLength (hit first : bool) (n : nat) : nat :=
  if hit then (if Nat.eqb (S n) 10 then 0 else S n)
  else if first then 1 else 0.

(** The key codes of positions [from], [from + 1], ... of the pattern, each
    taken from the WASD row where [choice] says [true] and from the arrow row
    otherwise. *)
Fixpoint patternKeys (from : nat) (choice : list bool) : list string :=
  match choice with
  | [] => []
  | wasd :: rest =>
      nth from (if wasd then wasdSequence else sequence) "" :: patternKeys (S from) rest
  end.

(** The three rows a pattern symbol can be entered from. *)
Inductive Row : Type := Arrows | Wasd | Pad.

Definition symbolAt (n : nat) (r : Row) : Input :=
  match r with
  | Arrows => Key (nth n sequence "")
  | Wasd => Key (nth n wasdSequence "")
  | Pad => Button (nth n controllerSequence "")
  end.

(** The presses for positions [from], [from + 1], ... of the pattern, each
    entered from the row that [rows] names. *)
Fixpoint patternInputs (from : nat) (rows : list Row) : list Input :=
  match rows with
  | [] => []
  | r :: rest => symbolAt from r :: patternInputs (S from) rest
  end.

(** The string a press appends to [currentSequence]. *)
Definition pushed (i : Input) : string :=
  match i with Key s | Button s => s end.

Definition keyboardRow (wasd : bool) : Row := if wasd then Wasd else Arrows.

Definition isMatch (e : Event) : bool :=
  match e with Match => true | _ => false end.

Definition isPress (button : string) (e : Event) : bool :=
  match e with Press b => String.eqb b button | _ => false end.

(** Completed sequences, and press events of one button, so far. *)
Definition matches (w : World) : nat := length (List.filter isMatch (trace w)).

Definition presses (button : string) (w : World) : nat :=
  length (List.filter (isPress button) (trace w)).

(** What the playback gate and the matcher own: the flag, the pending
    timeouts, the calls of [play()], the entered sequence, the audio element,
    the clock and the count of completed sequences. *)
Record Gate : Type := {
  g_flag : bool;
  g_timeouts : list N;
  g_plays : nat;
  g_sequence : list string;
  g_audio : option Audio;
  g_clock : N;
  g_matches : nat
}.

Definition gate (w : World) : Gate :=
  {| g_flag := hasPlayedThisSession (self w);
     g_timeouts := timeouts w;
     g_plays := plays w;
     g_sequence := currentSequence (self w);
     g_audio := audio (self w);
     g_clock := clock w;
     g_matches := matches w |}.

(** What the poller owns: the tracked index, the recorded levels, the
    interval handle and the intervals that are live. *)
Record Poller : Type := {
  p_index : Z;
  p_previous : gmap string Js.Val;
  p_handle : option positive;
  p_intervals : list positive;
  p_next : positive
}.

Definition poller (w : World) : Poller :=
  {| p_index := gamepadIndex (self w);
     p_previous := previousButtonStates (self w);
     p_handle := gamepadPolling (self w);
     p_intervals := intervals w;
     p_next := nextHandle w |}.

(** A rising edge: the sampled level is pressed and the recorded one is not. *)
Definition risingEdge (isPressed : Js.Val) (previous : gmap string Js.Val)
    (button : string) : bool :=
  Js.truthy isPressed && negb (Js.truthy (Js.prop previous button)).

(** The live intervals are exactly the one the object holds a handle of. *)
Definition onePollLoop (w : World) : Prop :=
  intervals w = match gamepadPolling (self w) with Some h => [h] | None => [] end.

(** The index of the first gamepad that is there, or -1. *)
Definition firstGamepad (gamepads : list (option Gamepad)) : Z :=
  match list_find is_Some gamepads with
  | Some (i, _) => Z.of_nat i
  | None => -1
  end.

(** The gamepad of index [index] is there and its button [i] is down. *)
Definition buttonDown (gamepads : list (option Gamepad)) (index : Z) (i : nat) : Prop :=
  exists pad, mjoin (Js.index gamepads index) = Some pad /\ buttons pad !! i = Some true.

(** The shape of the gate between two events: fewer than ten symbols are
    entered; while the flag is set exactly one timeout is pending, it is not
    yet due and nothing is entered; while the flag is clear no timeout is
    pending. *)
Definition GateOk (g : Gate) : Prop :=
  length (g_sequence g) < 10 /\
  if g_flag g
  then (exists d, g_timeouts g = [d] /\ (g_clock g < d)%N) /\ g_sequence g = []
  else g_timeouts g = [].

(** Time that passes during a list of stimuli. *)
Definition elapsed (l : list Stimulus) : N :=
  fold_right (fun s t => match s with Elapse ms => (ms + t)%N | _ => t end) 0%N l.

(** The buttons the poller samples, with their index in [gamepad.buttons]. *)
Definition trackedButtons : list (string * nat) :=
  [("up", 12); ("down", 13); ("left", 14); ("right", 15); ("a", 0); ("b", 1)]%nat.

(** A browser where audio works, and one where [new Audio()] fails. *)
Definition workingBrowser : Browser :=
  {| audioCtor := true; playOutcome := fun _ => PlayResolves |}.

Definition noAudioBrowser : Browser :=
  {| audioCtor := false; playOutcome := fun _ => PlayResolves |}.

(** A gamepad with 16 buttons of which exactly those listed are down. *)
Definition padWith (down : list nat) : Gamepad :=
  {| buttons := map (fun i => existsb (Nat.eqb i) down) (seq 0 16) |}.

(** A page that was just loaded, with no gamepad connected, and the same
    page after the pattern was typed once on the arrow keys. *)
Definition freshPage : World := newKonamiCode workingBrowser [].

Definition afterFirstMatch : World :=
  run workingBrowser freshPage (map KeyDown sequence).

(** The page where the audio element could not be created. *)
Definition silentPage : World := newKonamiCode noAudioBrowser [].

(** ** Further notions *)

(** Is [s] a symbol of position [n] of the pattern, in one of its rows? *)
Definition symbolOk (n : nat) (s : string) : bool :=
  keyMatches s n || buttonMatches s n.

(** Every entry of [l] is a symbol of its position, the first entry being
    at position [from]. *)
Fixpoint validFrom (from : nat) (l : list string) : bool :=
  match l with
  | [] => true
  | s :: rest => symbolOk from s && validFrom (S from) rest
  end.

(** The presses that are the pattern's first symbol, one per row named. *)
Definition upPresses (rows : list Row) : list Input := map (symbolAt 0) rows.

(** The level a tick samples for the button of index [i] when the tracked
    gamepad is [index]. *)
Definition sampled (index : Z) (i : nat) (gamepads : list (option Gamepad)) : Js.Val :=
  match mjoin (Js.index gamepads index) with
  | Some pad => pressed pad i
  | None => Js.Undefined
  end.

(** The number of steps from not pressed to pressed in a run of levels
    that follows the level [previous]. *)
Fixpoint risingEdges (previous : bool) (levels : list bool) : nat :=
  match levels with
  | [] => 0
  | v :: rest => (if v && negb previous then 1 else 0) + risingEdges v rest
  end.

(** ** The script's last lines: creating the detector

    [document.addEventListener('DOMContentLoaded', () => { new KonamiCode(); })]
    and, unless [document.readyState === 'loading'],
    [setTimeout(() => { new KonamiCode(); }, 100)]. *)

Inductive ReadyState : Type := Loading | Interactive | Complete.

(** The detectors alive on the page, oldest first, and the time left until
    the start timer runs, if one is pending. Every detector has registered
    its own listeners and owns its own audio element, timers and interval. *)
Record Page : Type := {
  detectors : list World;
  startTimer : option N
}.

(** What can happen to the page. [DomContentLoaded] and [Pass] carry what
    [navigator.getGamepads()] returns should a constructor run. *)
Inductive PageEvent : Type :=
| DomContentLoaded (gamepads : list (option Gamepad))
| Pass (ms : N) (gamepads : list (option Gamepad))
| KeyPressed (code : string)
| PadConnected (index : Z)
| PadDisconnected (index : Z)
| IntervalsDue (gamepads : list (option Gamepad)).

(** The state of the page when the script has run to its end. *)
Definition loadScript (readyState : ReadyState) : Page :=
  {| detectors := [];
     startTimer := match readyState with
                   | Loading => None
                   | _ => Some 100%N
                   end |}.

Section Bootstrap.

Variable browser : Browser.

(** An event that every detector listens to. *)
Definition toAll (s : Stimulus) (p : Page) : Page :=
  {| detectors := map (fun w => step browser w s) (detectors p);
     startTimer := startTimer p |}.

Definition createDetector (gamepads : list (option Gamepad)) (p : Page) : Page :=
  {| detectors := detectors p ++ [newKonamiCode browser gamepads];
     startTimer := startTimer p |}.

Definition pageStep (p : Page) (e : PageEvent) : Page :=
  match e with
  | DomContentLoaded gamepads => createDetector gamepads p
  | Pass ms gamepads =>
      let p := toAll (Elapse ms) p in
      match startTimer p with
      | Some remaining =>
          if (remaining <=? ms)%N then
            createDetector gamepads {| detectors := detectors p; startTimer := None |}
          else {| detectors := detectors p; startTimer := Some (remaining - ms)%N |}
      | None => p
      end
  | KeyPressed code => toAll (KeyDown code) p
  | PadConnected index => toAll (GamepadConnected index) p
  | PadDisconnected index => toAll (GamepadDisconnected index) p
  | IntervalsDue gamepads => toAll (PollTick gamepads) p
  end.

Definition runPage (p : Page) (l : list PageEvent) : Page := fold_left pageStep l p.

End Bootstrap.

(** How often [DOMContentLoaded] was dispatched, and the time that passed. *)
Definition dispatches (l : list PageEvent) : nat :=
  length (List.filter (fun e => match e with DomContentLoaded _ => true | _ => false end) l).

Definition passed (l : list PageEvent) : N :=
  fold_right (fun e t => match e with Pass ms _ => (ms + t)%N | _ => t end) 0%N l.

(** All calls of [play()] on the page. *)
Definition totalPlays (p : Page) : nat := list_sum (map plays (detectors p)).

(** The number of detectors a history creates. *)
Definition created (readyState : ReadyState) (l : list PageEvent) : nat :=
  dispatches l +
  match readyState with
  | Loading => 0
  | _ => if (100 <=? passed l)%N then 1 else 0
  end.

(** A detector that has its audio element and has not been used yet. *)
Definition unused (w : World) : Prop :=
  hasPlayedThisSession (self w) = false /\
  currentSequence (self w) = [] /\
  timeouts w = [] /\
  plays w = 0 /\
  audio (self w) = Some {| preload := "auto"; src := audioUrl;
                           volumePercent := 70; currentTime := 0 |}.

(** Nothing but the document getting ready and time passing. *)
Definition quiet (e : PageEvent) : Prop :=
  match e with
  | DomContentLoaded _ | Pass _ _ => True
  | _ => False
  end.

(** ** The theme switch ([main.js] 291-331) *)

Module Theme.

(** [document.body.classList], [localStorage], what
    [prefersDarkScheme.matches] is now, and the listeners that the
    [DOMContentLoaded] handler got to register. [localStorage] is taken to
    be available: its methods do not throw. *)
Record State : Type := {
  bodyClasses : gset string;
  storage : gmap string string;
  prefersDark : bool;
  clickListener : bool;
  changeListener : bool
}.

(** A string in a condition: the empty string counts as false. *)
Definition truthy (v : option string) : bool :=
  match v with
  | Some s => negb (String.eqb s "")
  | None => false
  end.

(** [setTheme(theme)] *)
Definition setTheme (theme : string) (s : State) : State :=
  {| bodyClasses :=
       if String.eqb theme "dark"
       then (bodyClasses s ∪ {["dark-background"]}) ∖ {["light-background"]}
       else (bodyClasses s ∪ {["light-background"]}) ∖ {["dark-background"]};
     storage := <["theme" := theme]> (storage s);
     prefersDark := prefersDark s;
     clickListener := clickListener s;
     changeListener := changeListener s |}.

(** [getCurrentTheme()] *)
Definition getCurrentTheme (s : State) : string :=
  match storage s !! "theme" with
  | Some savedTheme =>
      if truthy (Some savedTheme) then savedTheme
      else if prefersDark s then "dark" else "light"
  | None => if prefersDark s then "dark" else "light"
  end.

(** The [DOMContentLoaded] handler. [hasButton] says whether
    [getElementById('theme-toggle-btn')] finds an element; if it does not,
    [themeToggleBtn.addEventListener] throws and the handler ends there. *)
Definition setup (hasButton : bool) (s : State) : State :=
  let s := setTheme (getCurrentTheme s) s in
  if hasButton then
    {| bodyClasses := bodyClasses s; storage := storage s;
       prefersDark := prefersDark s;
       clickListener := true; changeListener := true |}
  else s.

(** The button's click listener. *)
Definition onClick (s : State) : State :=
  let currentTheme := getCurrentTheme s in
  setTheme (if String.eqb currentTheme "dark" then "light" else "dark") s.

(** The listener of [prefersDarkScheme]'s [change] event. *)
Definition onChange (eMatches : bool) (s : State) : State :=
  if negb (truthy (storage s !! "theme")) then
    setTheme (if eMatches then "dark" else "light") s
  else s.

Inductive Event : Type :=
| Click
| SystemChange (matches : bool).

Definition step (s : State) (e : Event) : State :=
  match e with
  | Click => if clickListener s then onClick s else s
  | SystemChange matches =>
      let s := {| bodyClasses := bodyClasses s; storage := storage s;
                  prefersDark := matches;
                  clickListener := clickListener s;
                  changeListener := changeListener s |} in
      if changeListener s then onChange matches s else s
  end.

Definition run (s : State) (l : list Event) : State := fold_left step l s.

(** The clicks in a history, and whether the dark theme shows after them
    when [dark] says whether it showed before. *)
Definition clicks (l : list Event) : nat :=
  length (List.filter (fun e => match e with Click => true | _ => false end) l).

Definition darkAfter (dark : bool) (l : list Event) : bool :=
  xorb dark (Nat.odd (clicks l)).

(** The body classes with the theme [dark] showing. *)
Definition showing (dark : bool) (classes : gset string) : gset string :=
  if dark
  then (classes ∖ {["light-background"]}) ∪ {["dark-background"]}
  else (classes ∖ {["dark-background"]}) ∪ {["light-background"]}.

Definition themeName (dark : bool) : string := if dark then "dark" else "light".

End Theme.

(** ** The mobile header ([main.js] 13-33) *)

Module Nav.

(** [classList.toggle(c)] *)
Definition toggle (c : string) (classes : gset string) : gset string :=
  if bool_decide (c ∈ classes) then classes ∖ {[c]} else classes ∪ {[c]}.

(** The class list of [#header], if the page has that element, the class
    list of the [.header-toggle] button, and whether any other element of
    the page carries the class [header-show]. *)
Record State : Type := {
  header : option (gset string);
  toggleBtn : gset string;
  elsewhere : bool
}.

(** [headerToggle()]. Without [#header] its first line throws. *)
Definition headerToggle (s : State) : State :=
  match header s with
  | None => s
  | Some h =>
      {| header := Some (toggle "header-show" h);
         toggleBtn := toggle "bi-x" (toggle "bi-list" (toggleBtn s));
         elsewhere := elsewhere s |}
  end.

(** Does [document.querySelector('.header-show')] find an element? *)
Definition headerShow (s : State) : bool :=
  match header s with
  | Some h => bool_decide ("header-show" ∈ h)
  | None => false
  end
  || bool_decide ("header-show" ∈ toggleBtn s)
  || elsewhere s.

(** The click listener of a link of [#navmenu]. *)
Definition navLinkClick (s : State) : State :=
  if headerShow s then headerToggle s else s.

Inductive Event : Type := ButtonClick | LinkClick.

Definition step (s : State) (e : Event) : State :=
  match e with
  | ButtonClick => headerToggle s
  | LinkClick => navLinkClick s
  end.

Definition run (s : State) (l : list Event) : State := fold_left step l s.

(** Is the menu open? *)
Definition menuOpen (s : State) : bool :=
  match header s with
  | Some h => bool_decide ("header-show" ∈ h)
  | None => false
  end.

(** The menu as a switch: the button flips it, a link closes it. *)
Definition openAfter (open : bool) (l : list Event) : bool :=
  fold_left (fun o e => match e with ButtonClick => negb o | LinkClick => false end) l open.

End Nav.

(** ** The scrollspy ([main.js] 224-241) *)

Module Spy.

Section Numbers.

(** JavaScript numbers and the operations on them that the function uses;
    they are left open, nothing is assumed of them. *)
Variable Num : Type.
Variable plus : Num -> Num -> Num.
Variable geq : Num -> Num -> bool.
Variable leq : Num -> Num -> bool.
Variable twoHundred : Num.

Record Target : Type := { offsetTop : Num; offsetHeight : Num }.

(** What [document.querySelector(hash)] does: it finds the section, finds
    nothing, or throws because the hash is no selector. *)
Inductive Lookup : Type :=
| Found (section : Target)
| NotFound
| Throws.

(** A link of [.navmenu]: its [hash] and its class list. The links are
    those that [navmenulinks] holds since the script ran; the menu is taken
    to have no other links by the time of a pass. *)
Record Link : Type := { hash : string; classes : gset string }.

Variable querySelector : string -> Lookup.
Variable scrollY : Num.

Definition inView (section : Target) : bool :=
  let position := plus scrollY twoHundred in
  geq position (offsetTop section)
  && leq position (plus (offsetTop section) (offsetHeight section)).

(** What the callback does with one link. *)
Inductive Verdict : Type := Skip | Hit | Miss | Abort.

Definition verdict (l : Link) : Verdict :=
  if String.eqb (hash l) "" then Skip
  else
    match querySelector (hash l) with
    | Throws => Abort
    | NotFound => Skip
    | Found section => if inView section then Hit else Miss
    end.

Definition deactivate (l : Link) : Link :=
  {| hash := hash l; classes := classes l ∖ {["active"]} |}.

Definition activate (l : Link) : Link :=
  {| hash := hash l; classes := classes l ∪ {["active"]} |}.

(** The callback of the [forEach] at the link of position [i]; the flag
    says that a lookup threw, which ends the loop. A link in view takes
    [active] from every link of the menu and gets it itself. *)
Definition visit (state : list Link * bool) (i : nat) : list Link * bool :=
  if snd state then state
  else
    match fst state !! i with
    | None => state
    | Some l =>
        match verdict l with
        | Skip => state
        | Abort => (fst state, true)
        | Hit => (<[i := activate (deactivate l)]> (deactivate <$> fst state), false)
        | Miss => (<[i := deactivate l]> (fst state), false)
        end
    end.

(** [navmenuScrollspy()] *)
Definition navmenuScrollspy (links : list Link) : list Link * bool :=
  fold_left visit (seq 0 (length links)) (links, false).

(** The position of the last link whose section is in view. *)
Fixpoint lastHit (links : list Link) : option nat :=
  match links with
  | [] => None
  | l :: rest =>
      match lastHit rest with
      | Some i => Some (S i)
      | None => match verdict l with Hit => Some 0 | _ => None end
      end
  end.

Definition isActive (l : Link) : bool := bool_decide ("active" ∈ classes l).

Definition isSkip (v : Verdict) : bool :=
  match v with Skip => true | _ => false end.

(** Whether the link [l] of position [j] is active when the first [k]
    links have been visited. *)
Definition expected (links : list Link) (k j : nat) (l : Link) : bool :=
  match lastHit (take k links) with
  | Some i => Nat.eqb j i
  | None => if (j <? k)%nat then isSkip (verdict l) && isActive l else isActive l
  end.

End Numbers.

End Spy.

(** ** The contact form ([main.js] 247-285) *)

Module Form.

(** [style.display] of the two messages ([None]: the page has no such
    element), the calls of [form.reset()], and the requests that [fetch]
    has not answered yet. *)
Record State : Type := {
  successMessage : option string;
  errorMessage : option string;
  resets : nat;
  inFlight : nat
}.

(** How a request ends: a response that is [ok], one that is not, or a
    rejected promise. *)
Inductive Outcome : Type := ResponseOk | ResponseNotOk | Rejected.

(** The submit listener up to its [await]. [formDataOk] says whether
    [new FormData(form)] and the call of [fetch] run without throwing; if
    one throws, the [catch] shows the error at once. Without one of the
    message elements the assignment to its style throws, outside the
    [try]. *)
Definition onSubmit (formDataOk : bool) (s : State) : State :=
  match successMessage s with
  | None => s
  | Some _ =>
      match errorMessage s with
      | None =>
          {| successMessage := Some "none"; errorMessage := None;
             resets := resets s; inFlight := inFlight s |}
      | Some _ =>
          if formDataOk then
            {| successMessage := Some "none"; errorMessage := Some "none";
               resets := resets s; inFlight := S (inFlight s) |}
          else
            {| successMessage := Some "none"; errorMessage := Some "block";
               resets := resets s; inFlight := inFlight s |}
      end
  end.

(** The listener from its [await] on, for the request that ended. *)
Definition onSettled (o : Outcome) (s : State) : State :=
  match o with
  | ResponseOk =>
      {| successMessage := Some "block"; errorMessage := errorMessage s;
         resets := S (resets s); inFlight := pred (inFlight s) |}
  | ResponseNotOk | Rejected =>
      {| successMessage := successMessage s; errorMessage := Some "block";
         resets := resets s; inFlight := pred (inFlight s) |}
  end.

Inductive Event : Type :=
| Submit (formDataOk : bool)
| Settle (o : Outcome).

Definition step (s : State) (e : Event) : State :=
  match e with
  | Submit formDataOk => onSubmit formDataOk s
  | Settle o => match inFlight s with 0 => s | S _ => onSettled o s end
  end.

Definition run (s : State) (l : list Event) : State := fold_left step l s.

(** No submission while [n] requests are unanswered, in the whole history. *)
Fixpoint oneAtATime (n : nat) (l : list Event) : bool :=
  match l with
  | [] => true
  | Submit formDataOk :: rest =>
      Nat.eqb n 0 && oneAtATime (if formDataOk then 1 else 0) rest
  | Settle _ :: rest => oneAtATime (pred n) rest
  end.

Definition shown (m : option string) : bool :=
  match m with
  | Some d => String.eqb d "block"
  | None => false
  end.

End Form.

(** ** The portfolio filters ([main.js] 151-179) *)

Module Filters.

(** A filter button ([.isotope-filters li]): its class list and its
    [data-filter] attribute, if it has one. The buttons are taken to be the
    only elements of [.isotope-filters] that carry [filter-active]. *)
Record Filter : Type := { classes : gset string; dataFilter : option string }.

(** The filter buttons of one [.isotope-layout], whether [initIsotope] has
    been assigned (the images are loaded), the arguments of the calls of
    [initIsotope.arrange] and the calls of [aosInit] from a click. *)
Record State : Type := {
  filters : list Filter;
  layout : bool;
  arranged : list (option string);
  aosCalls : nat
}.

Definition marked (f : Filter) : bool := bool_decide ("filter-active" ∈ classes f).

Definition mark (f : Filter) : Filter :=
  {| classes := classes f ∪ {["filter-active"]}; dataFilter := dataFilter f |}.

Definition unmark (f : Filter) : Filter :=
  {| classes := classes f ∖ {["filter-active"]}; dataFilter := dataFilter f |}.

(** The click listener of the filter of position [i]. Where no filter is
    marked the first line throws; where [initIsotope] is still undefined
    the call of [arrange] throws, after the mark has moved. *)
Definition onClick (i : nat) (s : State) : State :=
  match filters s !! i with
  | None => s
  | Some this =>
      match list_find (fun f => marked f = true) (filters s) with
      | None => s
      | Some (a, active) =>
          let fs := alter mark i (<[a := unmark active]> (filters s)) in
          if layout s then
            {| filters := fs; layout := true;
               arranged := arranged s ++ [dataFilter this];
               aosCalls := S (aosCalls s) |}
          else
            {| filters := fs; layout := false;
               arranged := arranged s; aosCalls := aosCalls s |}
      end
  end.

Inductive Event : Type :=
| ImagesLoaded
| Click (i : nat).

Definition step (s : State) (e : Event) : State :=
  match e with
  | ImagesLoaded =>
      {| filters := filters s; layout := true;
         arranged := arranged s; aosCalls := aosCalls s |}
  | Click i => onClick i s
  end.

Definition run (s : State) (l : list Event) : State := fold_left step l s.

(** The filter clicked last among [n] filters, [a] if none was. *)
Definition lastClicked (n a : nat) (l : list Event) : nat :=
  fold_left (fun a e => match e with
                        | Click i => if (i <? n)%nat then i else a
                        | ImagesLoaded => a
                        end) l a.

(** The [data-filter] values of the clicks made once the images are
    loaded. *)
Fixpoint requested (ready : bool) (fs : list Filter) (l : list Event)
    : list (option string) :=
  match l with
  | [] => []
  | ImagesLoaded :: rest => requested true fs rest
  | Click i :: rest =>
      match fs !! i with
      | Some f => if ready then dataFilter f :: requested ready fs rest
                  else requested ready fs rest
      | None => requested ready fs rest
      end
  end.

End Filters.

(** A page to try the filters on: three buttons, the first one marked,
    the images not yet loaded. *)
Definition threeFilters : Filters.State :=
  {| Filters.filters :=
       [ {| Filters.classes := {["filter-active"]}; Filters.dataFilter := Some "*" |};
         {| Filters.classes := ∅; Filters.dataFilter := Some ".filter-app" |};
         {| Filters.classes := ∅; Filters.dataFilter := Some ".filter-web" |} ];
     Filters.layout := false;
     Filters.arranged := [];
     Filters.aosCalls := 0 |}.

(** A page to try the scrollspy on: whole pixels, two sections of 500
    pixels one below the other, and a menu of three links of which the last
    has no hash. *)
Definition twoSections (h : string) : Spy.Lookup Z :=
  if String.eqb h "#about" then Spy.Found Z {| Spy.offsetTop := 0%Z; Spy.offsetHeight := 500%Z |}
  else if String.eqb h "#work" then
    Spy.Found Z {| Spy.offsetTop := 500%Z; Spy.offsetHeight := 500%Z |}
  else Spy.NotFound Z.

Definition threeLinks : list Spy.Link :=
  [ {| Spy.hash := "#about"; Spy.classes := {["active"]} |};
    {| Spy.hash := "#work"; Spy.classes := ∅ |};
    {| Spy.hash := ""; Spy.classes := ∅ |} ].

(** A browser where the audio element exists and every [play()] throws,
    and a page loaded in it. *)
Definition throwingBrowser : Browser :=
  {| audioCtor := true; playOutcome := fun _ => PlayThrows |}.

Definition throwingPage : World := newKonamiCode throwingBrowser [].

(** ** The matcher *)

Ltac open_world w :=
  let k := fresh "k" in
  destruct w as [k ? ? ? ? ? ?]; destruct k; simpl in *.

Section Matcher.

Variable browser : Browser.

Lemma prefixLength_push s w : prefixLength (push s w) = S (prefixLength w).
Proof.
  unfold prefixLength, push; simpl. rewrite length_app; simpl; lia.
Qed.

Lemma prefixLength_resetSequence w : prefixLength (resetSequence w) = 0.
Proof. reflexivity. Qed.

Lemma hasPlayed_push s w :
  hasPlayedThisSession (self (push s w)) = hasPlayedThisSession (self w).
Proof. reflexivity. Qed.

(** A press that equals the pattern at position [n] finds [n < 10]. *)
Lemma keyMatches_lt k n : keyMatches k n = true -> n < 10.
Proof.
  unfold keyMatches. do 10 (destruct n as [|n]; [lia|]).
  simpl. discriminate.
Qed.

Lemma buttonMatches_lt b n : buttonMatches b n = true -> n < 10.
Proof.
  unfold buttonMatches. do 10 (destruct n as [|n]; [lia|]).
  simpl. discriminate.
Qed.

(** While the flag is set both handlers return at their first line. *)
Lemma handleKeyboardInput_suppressed k w :
  hasPlayedThisSession (self w) = true -> handleKeyboardInput browser k w = w.
Proof. intros H. unfold handleKeyboardInput. now rewrite H. Qed.

Lemma handleControllerInput_suppressed b w :
  hasPlayedThisSession (self w) = true -> handleControllerInput browser b w = w.
Proof. intros H. unfold handleControllerInput. now rewrite H. Qed.

(** The three ways a key press is handled while the flag is clear. *)
Lemma handleKeyboardInput_advance k w :
  hasPlayedThisSession (self w) = false ->
  keyMatches k (prefixLength w) = true ->
  prefixLength w <> 9 ->
  handleKeyboardInput browser k w = push k w.
Proof.
  intros Hf Hm Hn. unfold handleKeyboardInput. rewrite Hf.
  fold (keyMatches k (prefixLength w)). rewrite Hm.
  rewrite prefixLength_push. simpl length.
  destruct (Nat.eqb_spec (S (prefixLength w)) 10); [lia | reflexivity].
Qed.

Lemma handleKeyboardInput_complete k w :
  hasPlayedThisSession (self w) = false ->
  keyMatches k (prefixLength w) = true ->
  prefixLength w = 9 ->
  handleKeyboardInput browser k w =
  resetSequence (playKonamiAudio browser (push k w)).
Proof.
  intros Hf Hm Hn. unfold handleKeyboardInput. rewrite Hf.
  fold (keyMatches k (prefixLength w)). rewrite Hm.
  rewrite prefixLength_push, Hn. reflexivity.
Qed.

Lemma handleKeyboardInput_mismatch k w :
  hasPlayedThisSession (self w) = false ->
  keyMatches k (prefixLength w) = false ->
  handleKeyboardInput browser k w =
  if keyMatches k 0 then push k (resetSequence w) else resetSequence w.
Proof.
  intros Hf Hm. unfold handleKeyboardInput. rewrite Hf.
  fold (keyMatches k (prefixLength w)). rewrite Hm. reflexivity.
Qed.

Lemma handleControllerInput_advance b w :
  hasPlayedThisSession (self w) = false ->
  buttonMatches b (prefixLength w) = true ->
  prefixLength w <> 9 ->
  handleControllerInput browser b w = push b w.
Proof.
  intros Hf Hm Hn. unfold handleControllerInput. rewrite Hf.
  fold (buttonMatches b (prefixLength w)). rewrite Hm.
  rewrite prefixLength_push. simpl length.
  destruct (Nat.eqb_spec (S (prefixLength w)) 10); [lia | reflexivity].
Qed.

Lemma handleControllerInput_complete b w :
  hasPlayedThisSession (self w) = false ->
  buttonMatches b (prefixLength w) = true ->
  prefixLength w = 9 ->
  handleControllerInput browser b w =
  resetSequence (playKonamiAudio browser (push b w)).
Proof.
  intros Hf Hm Hn. unfold handleControllerInput. rewrite Hf.
  fold (buttonMatches b (prefixLength w)). rewrite Hm.
  rewrite prefixLength_push, Hn. reflexivity.
Qed.

Lemma handleControllerInput_mismatch b w :
  hasPlayedThisSession (self w) = false ->
  buttonMatches b (prefixLength w) = false ->
  handleControllerInput browser b w =
  if buttonMatches b 0 then push b (resetSequence w) else resetSequence w.
Proof.
  intros Hf Hm. unfold handleControllerInput. rewrite Hf.
  fold (buttonMatches b (prefixLength w)). rewrite Hm. reflexivity.
Qed.

(** [playKonamiAudio] leaves the entered sequence alone and counts one
    more completed sequence. *)
Lemma currentSequence_playKonamiAudio w :
  currentSequence (self (playKonamiAudio browser w)) = currentSequence (self w).
Proof.
  unfold playKonamiAudio. open_world w.
  destruct hasPlayedThisSession0; [reflexivity|].
  destruct audio0 as [a|]; [|reflexivity]. simpl.
  destruct (playOutcome browser plays0); reflexivity.
Qed.

Lemma matches_playKonamiAudio w :
  matches (playKonamiAudio browser w) = S (matches w).
Proof.
  unfold playKonamiAudio, matches. open_world w.
  destruct hasPlayedThisSession0; [reflexivity|].
  destruct audio0 as [a|]; [|reflexivity]. simpl.
  destruct (playOutcome browser plays0); reflexivity.
Qed.

(** The prefix length after one press, on either handler. *)
Lemma prefixLength_handleKeyboardInput k w :
  hasPlayedThisSession (self w) = false ->
  prefixLength (handleKeyboardInput browser k w) =
  nextLength (keyMatches k (prefixLength w)) (keyMatches k 0) (prefixLength w).
Proof.
  intros Hf. unfold nextLength.
  destruct (keyMatches k (prefixLength w)) eqn:Hm.
  - destruct (Nat.eqb_spec (S (prefixLength w)) 10) as [E|E].
    + rewrite handleKeyboardInput_complete by (auto; lia). reflexivity.
    + rewrite handleKeyboardInput_advance by (auto; lia).
      apply prefixLength_push.
  - rewrite handleKeyboardInput_mismatch by auto.
    destruct (keyMatches k 0); [|reflexivity].
    now rewrite prefixLength_push.
Qed.

Lemma prefixLength_handleControllerInput b w :
  hasPlayedThisSession (self w) = false ->
  prefixLength (handleControllerInput browser b w) =
  nextLength (buttonMatches b (prefixLength w)) (buttonMatches b 0) (prefixLength w).
Proof.
  intros Hf. unfold nextLength.
  destruct (buttonMatches b (prefixLength w)) eqn:Hm.
  - destruct (Nat.eqb_spec (S (prefixLength w)) 10) as [E|E].
    + rewrite handleControllerInput_complete by (auto; lia). reflexivity.
    + rewrite handleControllerInput_advance by (auto; lia).
      apply prefixLength_push.
  - rewrite handleControllerInput_mismatch by auto.
    destruct (buttonMatches b 0); [|reflexivity].
    now rewrite prefixLength_push.
Qed.

End Matcher.

(** ** Entering the pattern *)

Section Pattern.

Variable browser : Browser.

Lemma symbolAt_hits n r w :
  n < 10 ->
  hasPlayedThisSession (self w) = false ->
  prefixLength w = n ->
  consume browser w (symbolAt n r) =
  if Nat.eqb n 9
  then resetSequence (playKonamiAudio browser (push (pushed (symbolAt n r)) w))
  else push (pushed (symbolAt n r)) w.
Proof.
  intros Hn Hf Hl.
  assert (Hkey : forall wasd : bool,
             keyMatches (nth n (if wasd then wasdSequence else sequence) "") n = true).
  { intros wasd. do 10 (destruct n as [|n]; [now destruct wasd|]). lia. }
  assert (Hpad : buttonMatches (nth n controllerSequence "") n = true).
  { do 10 (destruct n as [|n]; [reflexivity|]). lia. }
  destruct (Nat.eqb_spec n 9) as [E|E]; destruct r; simpl.
  - apply handleKeyboardInput_complete; rewrite ?Hl; auto. apply (Hkey false).
  - apply handleKeyboardInput_complete; rewrite ?Hl; auto. apply (Hkey true).
  - apply handleControllerInput_complete; rewrite ?Hl; auto.
  - apply handleKeyboardInput_advance; rewrite ?Hl; auto. apply (Hkey false).
  - apply handleKeyboardInput_advance; rewrite ?Hl; auto. apply (Hkey true).
  - apply handleControllerInput_advance; rewrite ?Hl; auto.
Qed.

Lemma push_after_pushes s l w :
  upd (set_currentSequence (currentSequence (self (push s w)) ++ l)) (push s w) =
  upd (set_currentSequence (currentSequence (self w) ++ s :: l)) w.
Proof.
  open_world w. unfold upd, push, set_currentSequence; simpl.
  now rewrite <- app_assoc.
Qed.

(** Symbols of the pattern entered in order, short of the last one, are
    appended one by one and nothing else happens. *)
Lemma feed_pattern_partial rows : forall n w,
  hasPlayedThisSession (self w) = false ->
  prefixLength w = n ->
  n + length rows <= 9 ->
  feed browser w (patternInputs n rows) =
  upd (set_currentSequence
         (currentSequence (self w) ++ map pushed (patternInputs n rows))) w.
Proof.
  induction rows as [|r rows IH]; intros n w Hf Hl Hle; simpl in *.
  - rewrite app_nil_r. now open_world w.
  - unfold feed in *; simpl. rewrite symbolAt_hits by (auto; lia).
    destruct (Nat.eqb_spec n 9); [lia|].
    rewrite (IH (S n)); [apply push_after_pushes | easy | | lia].
    rewrite prefixLength_push; lia.
Qed.

(** Entered up to and with the last symbol, the sequence is completed:
    [playKonamiAudio] is called on the full sequence, which is then
    emptied. *)
Lemma feed_pattern_complete rows : forall n w,
  hasPlayedThisSession (self w) = false ->
  prefixLength w = n ->
  rows <> [] ->
  n + length rows = 10 ->
  feed browser w (patternInputs n rows) =
  resetSequence
    (playKonamiAudio browser
       (upd (set_currentSequence
               (currentSequence (self w) ++ map pushed (patternInputs n rows))) w)).
Proof.
  induction rows as [|r rows IH]; intros n w Hf Hl Hne Hle; [easy|].
  simpl in *. unfold feed in *; simpl. rewrite symbolAt_hits by (auto; lia).
  destruct rows as [|r' rows].
  - simpl in *. destruct (Nat.eqb_spec n 9); [|lia]. reflexivity.
  - destruct (Nat.eqb_spec n 9); [simpl in *; lia|].
    rewrite (IH (S n)); [| easy | | easy | simpl in *; lia].
    + now rewrite push_after_pushes.
    + rewrite prefixLength_push; lia.
Qed.

Lemma run_KeyDown l : forall w,
  run browser w (map KeyDown l) = feed browser w (map Key l).
Proof. induction l as [|k l IH]; intros w; [reflexivity|]. apply IH. Qed.

Lemma patternKeys_inputs choice : forall n,
  map Key (patternKeys n choice) = patternInputs n (map keyboardRow choice).
Proof.
  induction choice as [|c choice IH]; intros n; [reflexivity|].
  simpl. rewrite IH. now destruct c.
Qed.

Lemma length_patternInputs rows : forall n,
  length (patternInputs n rows) = length rows.
Proof. induction rows; intros; simpl; auto. Qed.

Lemma matches_upd f w : matches (upd f w) = matches w.
Proof. reflexivity. Qed.

End Pattern.

(** C2. From an empty sequence with the flag clear, the first [k < 10]
    symbols of the pattern, each typed as its arrow code or as its WASD
    code, leave [prefixLength = k] and complete no sequence; all ten of them
    complete exactly one sequence (one MATCH) and leave [prefixLength = 0]. *)
Theorem pattern_prefix_counts_then_matches_once
    (browser : Browser) (w : World) (choice : list bool) :
  hasPlayedThisSession (self w) = false ->
  currentSequence (self w) = [] ->
  (length choice < 10 ->
   prefixLength (run browser w (map KeyDown (patternKeys 0 choice))) = length choice /\
   matches (run browser w (map KeyDown (patternKeys 0 choice))) = matches w) /\
  (length choice = 10 ->
   matches (run browser w (map KeyDown (patternKeys 0 choice))) = S (matches w) /\
   prefixLength (run browser w (map KeyDown (patternKeys 0 choice))) = 0).
Proof.
  intros Hf He. rewrite run_KeyDown, patternKeys_inputs.
  assert (Hl : prefixLength w = 0) by (unfold prefixLength; now rewrite He).
  split; intros Hlen.
  - rewrite feed_pattern_partial by (rewrite ?length_map; auto; lia).
    split; [|reflexivity].
    unfold prefixLength; simpl.
    rewrite He, length_app, length_map, length_patternInputs, length_map.
    reflexivity.
  - rewrite feed_pattern_complete;
      [| easy | easy | destruct choice; [discriminate|easy] | now rewrite length_map ].
    split; [|reflexivity].
    change (matches (playKonamiAudio browser
      (upd (set_currentSequence (currentSequence (self w) ++
         map pushed (patternInputs 0 (map keyboardRow choice)))) w)) = S (matches w)).
    now rewrite matches_playKonamiAudio.
Qed.

Lemma pattern_prefix_counts_then_matches_once_witness :
  (prefixLength (run workingBrowser freshPage
     (map KeyDown (patternKeys 0 [false; true; false; true; true]))) = 5 /\
   matches (run workingBrowser freshPage
     (map KeyDown (patternKeys 0 [false; true; false; true; true]))) = 0) /\
  (matches (run workingBrowser freshPage
     (map KeyDown (patternKeys 0
        [false; true; false; true; true; false; true; false; false; true]))) = 1 /\
   prefixLength (run workingBrowser freshPage
     (map KeyDown (patternKeys 0
        [false; true; false; true; true; false; true; false; false; true]))) = 0).
Proof.
  split.
  - apply (pattern_prefix_counts_then_matches_once workingBrowser freshPage
             [false; true; false; true; true]);
      [reflexivity | reflexivity | simpl; lia].
  - apply (pattern_prefix_counts_then_matches_once workingBrowser freshPage
             [false; true; false; true; true; false; true; false; false; true]);
      reflexivity.
Defined.

(** C5. With the flag clear, a press that is not the expected symbol empties
    the sequence and, when it is the pattern's first symbol, starts a new
    attempt of length 1. So UP, LEFT and UP, DOWN leave [prefixLength = 0]
    and UP, UP, UP leaves 1, on the arrow keys, on WASD and on the
    controller. *)
Theorem mismatch_resets_then_restarts (browser : Browser) (w : World) (s : string) :
  hasPlayedThisSession (self w) = false ->
  (keyMatches s (prefixLength w) = false ->
   prefixLength (handleKeyboardInput browser s w) = if keyMatches s 0 then 1 else 0) /\
  (buttonMatches s (prefixLength w) = false ->
   prefixLength (handleControllerInput browser s w) = if buttonMatches s 0 then 1 else 0) /\
  (currentSequence (self w) = [] ->
   prefixLength (feed browser w [Key "ArrowUp"; Key "ArrowLeft"]) = 0 /\
   prefixLength (feed browser w [Key "ArrowUp"; Key "ArrowDown"]) = 0 /\
   prefixLength (feed browser w [Key "ArrowUp"; Key "ArrowUp"; Key "ArrowUp"]) = 1 /\
   prefixLength (feed browser w [Key "KeyW"; Key "KeyA"]) = 0 /\
   prefixLength (feed browser w [Key "KeyW"; Key "KeyS"]) = 0 /\
   prefixLength (feed browser w [Key "KeyW"; Key "KeyW"; Key "KeyW"]) = 1 /\
   prefixLength (feed browser w [Button "up"; Button "left"]) = 0 /\
   prefixLength (feed browser w [Button "up"; Button "down"]) = 0 /\
   prefixLength (feed browser w [Button "up"; Button "up"; Button "up"]) = 1).
Proof.
  intros Hf. split; [|split].
  - intros Hm. rewrite prefixLength_handleKeyboardInput by assumption.
    unfold nextLength. now rewrite Hm.
  - intros Hm. rewrite prefixLength_handleControllerInput by assumption.
    unfold nextLength. now rewrite Hm.
  - intros He. open_world w. subst. repeat split; reflexivity.
Qed.

Lemma mismatch_resets_then_restarts_witness :
  prefixLength (feed workingBrowser freshPage [Key "ArrowUp"; Key "ArrowUp"]) = 2 /\
  prefixLength (handleKeyboardInput workingBrowser "ArrowUp"
     (feed workingBrowser freshPage [Key "ArrowUp"; Key "ArrowUp"])) = 1 /\
  prefixLength (handleControllerInput workingBrowser "left"
     (feed workingBrowser freshPage [Key "ArrowUp"; Key "ArrowUp"])) = 0.
Proof.
  split; [reflexivity|]. split.
  - exact (proj1 (mismatch_resets_then_restarts workingBrowser
                    (feed workingBrowser freshPage [Key "ArrowUp"; Key "ArrowUp"])
                    "ArrowUp" eq_refl) eq_refl).
  - exact (proj1 (proj2 (mismatch_resets_then_restarts workingBrowser
                    (feed workingBrowser freshPage [Key "ArrowUp"; Key "ArrowUp"])
                    "left" eq_refl)) eq_refl).
Defined.

(** While the flag is set a list of presses changes nothing. *)
Lemma feed_suppressed (browser : Browser) (w : World) (l : list Input) :
  hasPlayedThisSession (self w) = true -> feed browser w l = w.
Proof.
  intros Hf. induction l as [|i l IH]; [reflexivity|].
  unfold feed in *; simpl.
  destruct i; simpl.
  - now rewrite handleKeyboardInput_suppressed.
  - now rewrite handleControllerInput_suppressed.
Qed.

(** C3 as stated fails: after a first match the flag is set, and a second
    run through the pattern leaves [prefixLength] at 0 after every key and
    completes no second sequence. *)
Lemma suppressed_pattern_leaves_prefix_at_zero :
  hasPlayedThisSession (self afterFirstMatch) = true /\
  matches afterFirstMatch = 1 /\
  map (fun k => prefixLength
                  (run workingBrowser afterFirstMatch (map KeyDown (firstn k sequence))))
      (seq 1 10) = repeat 0 10 /\
  matches (run workingBrowser afterFirstMatch (map KeyDown sequence)) = 1.
Proof. repeat split; reflexivity. Qed.

(** C3, amended. While the flag is set every press, from either source, is
    dropped at the handler's first line: the sequence, the count of completed
    sequences and the count of [play()] calls stay what they were. *)
Theorem suppressed_presses_are_dropped (browser : Browser) (w : World) (l : list Input) :
  hasPlayedThisSession (self w) = true ->
  feed browser w l = w /\
  prefixLength (feed browser w l) = prefixLength w /\
  matches (feed browser w l) = matches w /\
  plays (feed browser w l) = plays w.
Proof.
  intros Hf. rewrite (feed_suppressed browser w l Hf). auto.
Qed.

Lemma suppressed_presses_are_dropped_witness :
  feed workingBrowser afterFirstMatch (patternInputs 0 [Arrows; Pad; Wasd; Pad]) =
  afterFirstMatch.
Proof.
  apply (suppressed_presses_are_dropped workingBrowser afterFirstMatch
           (patternInputs 0 [Arrows; Pad; Wasd; Pad])).
  reflexivity.
Defined.

(** C1 as stated fails: there is one [currentSequence]. After ArrowUp on the
    keyboard the prefix has length 1; a controller press of "left" resets it
    to 0 and a controller press of "up" advances it to 2. The other way
    round, a key press resets or advances what the controller began. *)
Lemma controller_press_moves_keyboard_prefix :
  prefixLength (feed workingBrowser freshPage [Key "ArrowUp"]) = 1 /\
  prefixLength (feed workingBrowser freshPage [Key "ArrowUp"; Button "left"]) = 0 /\
  prefixLength (feed workingBrowser freshPage [Key "ArrowUp"; Button "up"]) = 2 /\
  prefixLength (feed workingBrowser freshPage [Button "up"]) = 1 /\
  prefixLength (feed workingBrowser freshPage [Button "up"; Key "ArrowLeft"]) = 0 /\
  prefixLength (feed workingBrowser freshPage [Button "up"; Key "KeyW"]) = 2.
Proof. repeat split; reflexivity. Qed.

(** C1, amended. Both handlers read and write the one [currentSequence]:
    with the flag clear, the prefix length after a press is a function of
    the press and of the length of that shared sequence, whoever entered it;
    and the pattern's ten symbols entered in order, each from any of the
    three rows, complete exactly one sequence. *)
Theorem channels_share_one_prefix
    (browser : Browser) (w : World) (s : string) (rows : list Row) :
  hasPlayedThisSession (self w) = false ->
  prefixLength (handleControllerInput browser s w) =
    nextLength (buttonMatches s (prefixLength w)) (buttonMatches s 0) (prefixLength w) /\
  prefixLength (handleKeyboardInput browser s w) =
    nextLength (keyMatches s (prefixLength w)) (keyMatches s 0) (prefixLength w) /\
  (currentSequence (self w) = [] -> length rows = 10 ->
   matches (feed browser w (patternInputs 0 rows)) = S (matches w) /\
   prefixLength (feed browser w (patternInputs 0 rows)) = 0).
Proof.
  intros Hf. split; [|split].
  - now apply prefixLength_handleControllerInput.
  - now apply prefixLength_handleKeyboardInput.
  - intros He Hlen.
    rewrite feed_pattern_complete;
      [| easy | unfold prefixLength; now rewrite He
       | destruct rows; [discriminate|easy] | easy ].
    split; [|reflexivity].
    change (matches (playKonamiAudio browser
      (upd (set_currentSequence (currentSequence (self w) ++
         map pushed (patternInputs 0 rows))) w)) = S (matches w)).
    now rewrite matches_playKonamiAudio.
Qed.

Lemma channels_share_one_prefix_witness :
  prefixLength (handleControllerInput workingBrowser "up"
     (feed workingBrowser freshPage [Key "ArrowUp"])) = 2 /\
  matches (feed workingBrowser freshPage
     (patternInputs 0 [Arrows; Pad; Wasd; Pad; Arrows; Pad; Wasd; Pad; Arrows; Pad])) = 1.
Proof.
  split.
  - apply (channels_share_one_prefix workingBrowser
             (feed workingBrowser freshPage [Key "ArrowUp"]) "up" []).
    reflexivity.
  - apply (channels_share_one_prefix workingBrowser freshPage "up"
             [Arrows; Pad; Wasd; Pad; Arrows; Pad; Wasd; Pad; Arrows; Pad]);
      reflexivity.
Defined.

(** ** The playback gate and its cooldown *)

Section PlaybackGate.

Variable browser : Browser.

(** The call of [playKonamiAudio] that goes through: the element exists
    and [play()] returns a promise. *)
Lemma playKonamiAudio_played w a :
  hasPlayedThisSession (self w) = false ->
  audio (self w) = Some a ->
  playOutcome browser (plays w) <> PlayThrows ->
  gate (playKonamiAudio browser w) =
  {| g_flag := true;
     g_timeouts := timeouts w ++ [(clock w + 10000)%N];
     g_plays := S (plays w);
     g_sequence := currentSequence (self w);
     g_audio := Some (rewound a);
     g_clock := clock w;
     g_matches := S (matches w) |}.
Proof.
  intros Hf Ha Ho. unfold playKonamiAudio, gate, matches. open_world w. subst.
  destruct (playOutcome browser plays0); [reflexivity | reflexivity | easy].
Qed.

(** Without an element the call does nothing (but count the match). *)
Lemma playKonamiAudio_no_audio w :
  hasPlayedThisSession (self w) = false ->
  audio (self w) = None ->
  playKonamiAudio browser w = emit Match w.
Proof.
  intros Hf Ha. unfold playKonamiAudio. open_world w. now subst.
Qed.

(** A [play()] that throws is caught and logged; the flag is not set. *)
Lemma playKonamiAudio_throws w a :
  hasPlayedThisSession (self w) = false ->
  audio (self w) = Some a ->
  playOutcome browser (plays w) = PlayThrows ->
  playKonamiAudio browser w =
  emit (ConsoleWarn "Error playing Konami Code audio:")
    (called_play (upd (set_audio (Some (rewound a))) (emit Match w))).
Proof.
  intros Hf Ha Ho. unfold playKonamiAudio. open_world w. subst.
  now rewrite Ho.
Qed.

Lemma gate_resetSequence w :
  gate (resetSequence w) =
  {| g_flag := g_flag (gate w); g_timeouts := g_timeouts (gate w);
     g_plays := g_plays (gate w); g_sequence := [];
     g_audio := g_audio (gate w); g_clock := g_clock (gate w);
     g_matches := g_matches (gate w) |}.
Proof. reflexivity. Qed.

(** *** Inside the window *)

Lemma gate_checkButtonPress_suppressed b v w :
  hasPlayedThisSession (self w) = true ->
  gate (checkButtonPress browser b v w) = gate w.
Proof.
  intros Hf. unfold checkButtonPress.
  destruct (Js.truthy v && negb _).
  - rewrite handleControllerInput_suppressed by exact Hf. reflexivity.
  - reflexivity.
Qed.

Lemma gate_startGamepadPolling w : gate (startGamepadPolling w) = gate w.
Proof.
  unfold startGamepadPolling. destruct (gamepadPolling (self w)); reflexivity.
Qed.

Lemma gate_onGamepadConnected i w : gate (onGamepadConnected i w) = gate w.
Proof. unfold onGamepadConnected. now rewrite gate_startGamepadPolling. Qed.

Lemma gate_onGamepadDisconnected i w : gate (onGamepadDisconnected i w) = gate w.
Proof.
  unfold onGamepadDisconnected.
  destruct (gamepadIndex _ =? i)%Z; reflexivity.
Qed.

Lemma gate_clearInterval h w : gate (clearInterval h w) = gate w.
Proof. destruct h; reflexivity. Qed.

Lemma gate_pollGamepad_suppressed gamepads w :
  hasPlayedThisSession (self w) = true ->
  gate (pollGamepad browser gamepads w) = gate w.
Proof.
  intros Hf. unfold pollGamepad.
  destruct (gamepadIndex (self w) =? -1)%Z; [reflexivity|].
  destruct (mjoin _) as [pad|].
  - assert (Hstep : forall b v w', gate w' = gate w ->
              gate (checkButtonPress browser b v w') = gate w).
    { intros b v w' E. rewrite gate_checkButtonPress_suppressed; [exact E|].
      change (g_flag (gate w') = true). rewrite E. exact Hf. }
    cbv zeta. auto 10.
  - unfold upd at 1. unfold gate at 1, matches. simpl.
    fold (matches (clearInterval (gamepadPolling (self w)) (upd (set_gamepadIndex (-1)) w))).
    destruct (gamepadPolling (self w)); reflexivity.
Qed.

Lemma gate_tick_suppressed gamepads w :
  hasPlayedThisSession (self w) = true ->
  gate (tick browser gamepads w) = gate w.
Proof.
  intros Hf. unfold tick.
  generalize (intervals w) as hs. intros hs.
  assert (G : forall w', gate w' = gate w ->
            gate (fold_left
              (fun w h => if existsb (Pos.eqb h) (intervals w)
                          then pollGamepad browser gamepads w else w) hs w') = gate w).
  { induction hs as [|h hs IH]; intros w' E; [exact E|].
    simpl. apply IH. destruct (existsb _ _); [|exact E].
    rewrite gate_pollGamepad_suppressed; [exact E|].
    change (g_flag (gate w') = true). rewrite E. exact Hf. }
  now apply G.
Qed.

(** A timeout that is not yet due stays, and the flag with it. *)
Lemma gate_advance_before d ms w :
  timeouts w = [d] ->
  (clock w + ms < d)%N ->
  gate (advance ms w) =
  {| g_flag := g_flag (gate w); g_timeouts := [d];
     g_plays := g_plays (gate w); g_sequence := g_sequence (gate w);
     g_audio := g_audio (gate w); g_clock := (clock w + ms)%N;
     g_matches := g_matches (gate w) |}.
Proof.
  intros Ht Hlt. unfold advance, runTimeouts. simpl. rewrite Ht. simpl.
  destruct (N.leb_spec d (clock w + ms)); [lia|]. reflexivity.
Qed.

(** Once it is due its callback runs: the flag is cleared. *)
Lemma gate_advance_due d ms w :
  timeouts w = [d] ->
  (d <= clock w + ms)%N ->
  gate (advance ms w) =
  {| g_flag := false; g_timeouts := [];
     g_plays := g_plays (gate w); g_sequence := g_sequence (gate w);
     g_audio := g_audio (gate w); g_clock := (clock w + ms)%N;
     g_matches := g_matches (gate w) |}.
Proof.
  intros Ht Hle. unfold advance, runTimeouts. simpl. rewrite Ht. simpl.
  destruct (N.leb_spec d (clock w + ms)); [|lia]. reflexivity.
Qed.

(** Nothing that happens before the deadline touches the gate: presses
    are dropped, the one timeout stays as it was set, no [play()]. *)
Lemma gate_window d l : forall w,
  hasPlayedThisSession (self w) = true ->
  timeouts w = [d] ->
  (clock w + elapsed l < d)%N ->
  gate (run browser w l) =
  {| g_flag := true; g_timeouts := [d];
     g_plays := plays w; g_sequence := currentSequence (self w);
     g_audio := audio (self w); g_clock := (clock w + elapsed l)%N;
     g_matches := matches w |}.
Proof.
  induction l as [|s l IH]; intros w Hf Ht Hlt.
  - simpl. rewrite N.add_0_r. unfold gate. now rewrite Hf, Ht.
  - assert (Hs : gate (step browser w s) =
                 {| g_flag := true; g_timeouts := [d];
                    g_plays := plays w; g_sequence := currentSequence (self w);
                    g_audio := audio (self w);
                    g_clock := (clock w + match s with Elapse ms => ms | _ => 0 end)%N;
                    g_matches := matches w |}).
    { destruct s; simpl step; rewrite ?N.add_0_r.
      - rewrite handleKeyboardInput_suppressed by exact Hf.
        unfold gate. now rewrite Hf, Ht.
      - rewrite gate_onGamepadConnected. unfold gate. now rewrite Hf, Ht.
      - rewrite gate_onGamepadDisconnected. unfold gate. now rewrite Hf, Ht.
      - rewrite gate_tick_suppressed by exact Hf. unfold gate. now rewrite Hf, Ht.
      - simpl in Hlt. rewrite (gate_advance_before d) by (auto; lia).
        unfold gate; simpl. now rewrite Hf. }
    change (run browser w (s :: l)) with (run browser (step browser w s) l).
    pose proof (f_equal g_flag Hs) as Hf'.
    pose proof (f_equal g_timeouts Hs) as Ht'.
    pose proof (f_equal g_clock Hs) as Hc'.
    pose proof (f_equal g_plays Hs) as Hp'.
    pose proof (f_equal g_sequence Hs) as Hq'.
    pose proof (f_equal g_audio Hs) as Ha'.
    pose proof (f_equal g_matches Hs) as Hm'.
    simpl in Hf', Ht', Hc', Hp', Hq', Ha', Hm'.
    rewrite IH; [| exact Hf' | exact Ht' | ].
    + rewrite Hp', Hq', Ha', Hm', Hc'. f_equal.
      destruct s; simpl; lia.
    + rewrite Hc'. destruct s; simpl in *; lia.
Qed.

End PlaybackGate.

Ltac gate_fields H :=
  let Hf := fresh "Hflag" in
  let Ht := fresh "Htimeouts" in
  let Hp := fresh "Hplays" in
  let Hq := fresh "Hsequence" in
  let Ha := fresh "Haudio" in
  let Hc := fresh "Hclock" in
  let Hm := fresh "Hmatches" in
  pose proof (f_equal g_flag H) as Hf;
  pose proof (f_equal g_timeouts H) as Ht;
  pose proof (f_equal g_plays H) as Hp;
  pose proof (f_equal g_sequence H) as Hq;
  pose proof (f_equal g_audio H) as Ha;
  pose proof (f_equal g_clock H) as Hc;
  pose proof (f_equal g_matches H) as Hm;
  cbn [gate g_flag g_timeouts g_plays g_sequence g_audio g_clock g_matches]
    in Hf, Ht, Hp, Hq, Ha, Hc, Hm.

(** The whole pattern typed where audio works: one [play()], the flag set,
    one timeout ten seconds from now. *)
Lemma gate_full_pattern (browser : Browser) (w : World) (a : Audio) (choice : list bool) :
  (forall n, playOutcome browser n <> PlayThrows) ->
  audio (self w) = Some a ->
  hasPlayedThisSession (self w) = false ->
  currentSequence (self w) = [] ->
  length choice = 10 ->
  gate (run browser w (map KeyDown (patternKeys 0 choice))) =
  {| g_flag := true;
     g_timeouts := timeouts w ++ [(clock w + 10000)%N];
     g_plays := S (plays w);
     g_sequence := [];
     g_audio := Some (rewound a);
     g_clock := clock w;
     g_matches := S (matches w) |}.
Proof.
  intros Ho Ha Hf He Hlen.
  rewrite run_KeyDown, patternKeys_inputs.
  rewrite feed_pattern_complete;
    [| easy | unfold prefixLength; now rewrite He
     | destruct choice; [discriminate|easy] | now rewrite length_map ].
  rewrite gate_resetSequence.
  rewrite (playKonamiAudio_played browser _ a); [reflexivity | easy | easy | apply Ho].
Qed.

(** The whole pattern entered from any rows, keyboard or controller, where
    audio works: one [play()], the flag set, one timeout ten seconds from
    now. *)
Lemma gate_full_rows (browser : Browser) (w : World) (a : Audio) (rows : list Row) :
  playOutcome browser (plays w) <> PlayThrows ->
  audio (self w) = Some a ->
  hasPlayedThisSession (self w) = false ->
  currentSequence (self w) = [] ->
  length rows = 10 ->
  gate (feed browser w (patternInputs 0 rows)) =
  {| g_flag := true;
     g_timeouts := timeouts w ++ [(clock w + 10000)%N];
     g_plays := S (plays w);
     g_sequence := [];
     g_audio := Some (rewound a);
     g_clock := clock w;
     g_matches := S (matches w) |}.
Proof.
  intros Ho Ha Hf He Hlen.
  rewrite feed_pattern_complete;
    [| easy | unfold prefixLength; now rewrite He
     | destruct rows; [discriminate|easy] | easy ].
  rewrite gate_resetSequence.
  rewrite (playKonamiAudio_played browser _ a); [reflexivity | easy | easy | apply Ho].
Qed.

(** The same where the match cannot play: the element is missing, or
    [play()] throws. *)
Lemma gate_full_rows_no_audio (browser : Browser) (w : World) (rows : list Row) :
  audio (self w) = None ->
  hasPlayedThisSession (self w) = false ->
  currentSequence (self w) = [] ->
  length rows = 10 ->
  gate (feed browser w (patternInputs 0 rows)) =
  {| g_flag := false;
     g_timeouts := timeouts w;
     g_plays := plays w;
     g_sequence := [];
     g_audio := None;
     g_clock := clock w;
     g_matches := S (matches w) |}.
Proof.
  intros Ha Hf He Hlen.
  rewrite feed_pattern_complete;
    [| easy | unfold prefixLength; now rewrite He
     | destruct rows; [discriminate|easy] | easy ].
  rewrite gate_resetSequence.
  rewrite playKonamiAudio_no_audio by easy.
  unfold gate, matches; simpl. now rewrite Hf, Ha.
Qed.

Lemma gate_full_rows_throws (browser : Browser) (w : World) (a : Audio) (rows : list Row) :
  playOutcome browser (plays w) = PlayThrows ->
  audio (self w) = Some a ->
  hasPlayedThisSession (self w) = false ->
  currentSequence (self w) = [] ->
  length rows = 10 ->
  gate (feed browser w (patternInputs 0 rows)) =
  {| g_flag := false;
     g_timeouts := timeouts w;
     g_plays := S (plays w);
     g_sequence := [];
     g_audio := Some (rewound a);
     g_clock := clock w;
     g_matches := S (matches w) |}.
Proof.
  intros Ho Ha Hf He Hlen.
  rewrite feed_pattern_complete;
    [| easy | unfold prefixLength; now rewrite He
     | destruct rows; [discriminate|easy] | easy ].
  rewrite gate_resetSequence.
  rewrite (playKonamiAudio_throws browser _ a) by easy.
  unfold gate, matches; simpl. now rewrite Hf.
Qed.

(** C4 as stated fails: a match sets the flag only where it can play.
    Where the audio element is missing, the pattern typed twice calls
    [play()] not once but never, is matched both times, and leaves the flag
    clear and no timeout; where [play()] throws, the pattern typed twice
    calls [play()] twice and the flag stays clear as well. *)
Lemma match_that_cannot_play_starts_no_cooldown :
  hasPlayedThisSession (self (run noAudioBrowser silentPage (map KeyDown sequence))) = false /\
  timeouts (run noAudioBrowser silentPage (map KeyDown sequence)) = [] /\
  plays (run noAudioBrowser silentPage (map KeyDown (sequence ++ sequence)%list)) = 0 /\
  matches (run noAudioBrowser silentPage (map KeyDown (sequence ++ sequence)%list)) = 2 /\
  hasPlayedThisSession (self (run throwingBrowser throwingPage (map KeyDown sequence))) = false /\
  timeouts (run throwingBrowser throwingPage (map KeyDown sequence)) = [] /\
  plays (run throwingBrowser throwingPage (map KeyDown (sequence ++ sequence)%list)) = 2 /\
  plays (feed throwingBrowser throwingPage
           (patternInputs 0 (repeat Pad 10) ++ patternInputs 0 (repeat Pad 10))%list) = 2.
Proof. repeat split; reflexivity. Qed.

(** C4, amended. A completed sequence, entered from the keyboard, from the
    controller or from both, starts the cooldown exactly where it can play.
    Where the audio element exists and [play()] returns a promise, the match
    calls [play()] once, sets the flag and leaves one timeout due 10000 ms
    later; a second full pattern right after it, or after anything that
    takes less than 10000 ms, calls no [play()], and nothing that happens in
    that time clears the flag or moves, cancels or adds a timeout; once
    10000 ms have passed the flag is clear, no timeout is left, and the
    pattern entered again calls [play()] a second time. Where the audio
    element is missing the match calls no [play()] and sets neither flag
    nor timeout; where [play()] throws, it is called and neither flag nor
    timeout is set. *)
Theorem cooldown_starts_where_the_match_plays
    (browser : Browser) (w : World) (first second : list Row)
    (during : list Stimulus) (ms : N) :
  hasPlayedThisSession (self w) = false ->
  currentSequence (self w) = [] ->
  timeouts w = [] ->
  length first = 10 ->
  length second = 10 ->
  (forall a,
     audio (self w) = Some a ->
     (forall n, playOutcome browser n <> PlayThrows) ->
     (plays (feed browser w (patternInputs 0 first)) = S (plays w) /\
      hasPlayedThisSession (self (feed browser w (patternInputs 0 first))) = true /\
      timeouts (feed browser w (patternInputs 0 first)) = [(clock w + 10000)%N]) /\
     plays (feed browser (feed browser w (patternInputs 0 first)) (patternInputs 0 second))
       = S (plays w) /\
     ((elapsed during < 10000)%N ->
      hasPlayedThisSession
        (self (run browser (feed browser w (patternInputs 0 first)) during)) = true /\
      timeouts (run browser (feed browser w (patternInputs 0 first)) during)
        = [(clock w + 10000)%N] /\
      plays (run browser (feed browser w (patternInputs 0 first)) during) = S (plays w) /\
      plays (feed browser (run browser (feed browser w (patternInputs 0 first)) during)
               (patternInputs 0 second)) = S (plays w)) /\
     ((elapsed during < 10000)%N -> (10000 <= elapsed during + ms)%N ->
      hasPlayedThisSession
        (self (run browser (feed browser w (patternInputs 0 first))
                 (during ++ [Elapse ms])%list)) = false /\
      timeouts (run browser (feed browser w (patternInputs 0 first))
                  (during ++ [Elapse ms])%list) = [] /\
      plays (feed browser
               (run browser (feed browser w (patternInputs 0 first))
                  (during ++ [Elapse ms])%list)
               (patternInputs 0 second)) = S (S (plays w)))) /\
  (audio (self w) = None ->
   plays (feed browser w (patternInputs 0 first)) = plays w /\
   matches (feed browser w (patternInputs 0 first)) = S (matches w) /\
   hasPlayedThisSession (self (feed browser w (patternInputs 0 first))) = false /\
   timeouts (feed browser w (patternInputs 0 first)) = []) /\
  (forall a,
     audio (self w) = Some a ->
     playOutcome browser (plays w) = PlayThrows ->
     plays (feed browser w (patternInputs 0 first)) = S (plays w) /\
     matches (feed browser w (patternInputs 0 first)) = S (matches w) /\
     hasPlayedThisSession (self (feed browser w (patternInputs 0 first))) = false /\
     timeouts (feed browser w (patternInputs 0 first)) = []).
Proof.
  intros Hf He Ht Hl1 Hl2. split; [|split].
  - intros a Ha Ho.
    pose proof (gate_full_rows browser w a first (Ho _) Ha Hf He Hl1) as G1.
    rewrite Ht in G1. simpl app in G1.
    set (w1 := feed browser w (patternInputs 0 first)) in *.
    gate_fields G1.
    assert (W : forall l, (elapsed l < 10000)%N ->
              gate (run browser w1 l) =
              {| g_flag := true; g_timeouts := [(clock w + 10000)%N];
                 g_plays := S (plays w); g_sequence := [];
                 g_audio := Some (rewound a);
                 g_clock := (clock w + elapsed l)%N;
                 g_matches := S (matches w) |}).
    { intros l Hlt.
      rewrite (gate_window browser (clock w + 10000)%N) by (auto; lia).
      now rewrite Hplays, Hsequence, Haudio, Hclock, Hmatches. }
    split; [auto | split; [| split]].
    + now rewrite (feed_suppressed browser w1 _ Hflag).
    + intros Hlt. pose proof (W during Hlt) as G2. gate_fields G2.
      repeat split; auto.
      now rewrite (feed_suppressed browser _ _ Hflag0).
    + intros Hlt Hge.
      assert (R : run browser w1 (during ++ [Elapse ms]) =
                  advance ms (run browser w1 during)).
      { unfold run. now rewrite fold_left_app. }
      rewrite R.
      pose proof (W during Hlt) as G2. gate_fields G2.
      pose proof (gate_advance_due (clock w + 10000)%N ms (run browser w1 during)
                    Htimeouts0 ltac:(lia)) as G3.
      cbn [gate g_flag g_timeouts g_plays g_sequence g_audio g_clock g_matches] in G3.
      gate_fields G3.
      rewrite Haudio0 in Haudio1. rewrite Hsequence0 in Hsequence1.
      pose proof (gate_full_rows browser _ (rewound a) second (Ho _)
                    Haudio1 Hflag1 Hsequence1 Hl2) as G4.
      gate_fields G4. rewrite Hplays2, Hplays1, Hplays0. auto.
  - intros Ha.
    pose proof (gate_full_rows_no_audio browser w first Ha Hf He Hl1) as G.
    gate_fields G. rewrite Ht in Htimeouts. auto.
  - intros a Ha Ho.
    pose proof (gate_full_rows_throws browser w a first Ho Ha Hf He Hl1) as G.
    gate_fields G. rewrite Ht in Htimeouts. auto.
Qed.

Lemma cooldown_starts_where_the_match_plays_witness :
  plays (feed workingBrowser
           (feed workingBrowser freshPage
              (patternInputs 0 [Arrows; Pad; Wasd; Pad; Arrows; Pad; Wasd; Pad; Arrows; Pad]))
           (patternInputs 0 (repeat Pad 10))) = 1 /\
  hasPlayedThisSession
    (self (run workingBrowser
             (feed workingBrowser freshPage
                (patternInputs 0
                   [Arrows; Pad; Wasd; Pad; Arrows; Pad; Wasd; Pad; Arrows; Pad]))
             [KeyDown "ArrowUp"; Elapse 9999; PollTick []])) = true /\
  plays (feed workingBrowser
           (run workingBrowser
              (feed workingBrowser freshPage
                 (patternInputs 0
                    [Arrows; Pad; Wasd; Pad; Arrows; Pad; Wasd; Pad; Arrows; Pad]))
              ([KeyDown "ArrowUp"; Elapse 9999; PollTick []] ++ [Elapse 1])%list)
           (patternInputs 0 (repeat Pad 10))) = 2.
Proof.
  pose proof (proj1 (cooldown_starts_where_the_match_plays workingBrowser freshPage
                       [Arrows; Pad; Wasd; Pad; Arrows; Pad; Wasd; Pad; Arrows; Pad]
                       (repeat Pad 10)
                       [KeyDown "ArrowUp"; Elapse 9999; PollTick []] 1%N
                       eq_refl eq_refl eq_refl eq_refl eq_refl)
                {| preload := "auto"; src := audioUrl;
                   volumePercent := 70; currentTime := 0 |}
                eq_refl ltac:(intros n; simpl; discriminate))
    as [_ [Twice [Within After]]].
  split; [exact Twice|]. split.
  - exact (proj1 (Within ltac:(vm_compute; reflexivity))).
  - exact (proj2 (proj2 (After ltac:(vm_compute; reflexivity) ltac:(vm_compute; discriminate)))).
Defined.

(** C6 as stated fails: where [new Audio()] throws, the element stays
    [null]; the completed sequence then sets no flag and schedules no
    timeout, and the pattern typed again at once is completed again. Where
    audio works the same input sets the flag and one timeout. *)
Lemma failed_preload_leaves_flag_clear :
  audio (self silentPage) = None /\
  trace silentPage = [ConsoleWarn "Could not preload Konami Code audio:"] /\
  matches (run noAudioBrowser silentPage (map KeyDown sequence)) = 1 /\
  hasPlayedThisSession (self (run noAudioBrowser silentPage (map KeyDown sequence))) = false /\
  timeouts (run noAudioBrowser silentPage (map KeyDown sequence)) = [] /\
  matches (run noAudioBrowser silentPage (map KeyDown (sequence ++ wasdSequence))) = 2 /\
  hasPlayedThisSession (self (run workingBrowser freshPage (map KeyDown sequence))) = true /\
  timeouts (run workingBrowser freshPage (map KeyDown sequence)) = [10000%N].
Proof. repeat split; reflexivity. Qed.

(** C6, amended. With the flag clear, when [play()] returns a promise that
    rejects, the rejection is logged and the flag and its timeout are set
    just as when playback starts, and the flag is clear again once 10000 ms
    have passed. When the element is [null] (it could not be created, which
    [preloadAudio] catches and logs) [playKonamiAudio] does nothing: no log,
    no flag, no timeout. When [play()] throws, the error is caught and
    logged and neither flag nor timeout is set. *)
Theorem playback_failure_bookkeeping (browser : Browser) (w : World) :
  hasPlayedThisSession (self w) = false ->
  (forall a, audio (self w) = Some a ->
     playOutcome browser (plays w) = PlayRejects ->
     trace (playKonamiAudio browser w) =
       ConsoleWarn "Could not play Konami Code audio:" :: Play :: Match :: trace w /\
     hasPlayedThisSession (self (playKonamiAudio browser w)) = true /\
     timeouts (playKonamiAudio browser w) = (timeouts w ++ [(clock w + 10000)%N])%list /\
     (timeouts w = [] -> forall ms,
        hasPlayedThisSession (self (advance ms (playKonamiAudio browser w))) =
        (ms <? 10000)%N)) /\
  (forall a, audio (self w) = Some a ->
     playOutcome browser (plays w) = PlayResolves ->
     trace (playKonamiAudio browser w) = Play :: Match :: trace w /\
     hasPlayedThisSession (self (playKonamiAudio browser w)) = true /\
     timeouts (playKonamiAudio browser w) = (timeouts w ++ [(clock w + 10000)%N])%list) /\
  (forall a, audio (self w) = Some a ->
     playOutcome browser (plays w) = PlayThrows ->
     trace (playKonamiAudio browser w) =
       ConsoleWarn "Error playing Konami Code audio:" :: Play :: Match :: trace w /\
     hasPlayedThisSession (self (playKonamiAudio browser w)) = false /\
     timeouts (playKonamiAudio browser w) = timeouts w) /\
  (audio (self w) = None ->
     playKonamiAudio browser w = emit Match w /\
     hasPlayedThisSession (self (playKonamiAudio browser w)) = false /\
     timeouts (playKonamiAudio browser w) = timeouts w) /\
  (audioCtor browser = false ->
     preloadAudio browser w = emit (ConsoleWarn "Could not preload Konami Code audio:") w).
Proof.
  intros Hf. repeat apply conj.
  - intros a Ha Ho.
    assert (E : playKonamiAudio browser w =
                setTimeout 10000
                  (upd (set_hasPlayedThisSession true)
                     (emit (ConsoleWarn "Could not play Konami Code audio:")
                        (called_play (upd (set_audio (Some (rewound a))) (emit Match w)))))).
    { unfold playKonamiAudio. open_world w. subst. now rewrite Ho. }
    rewrite E. repeat apply conj; try reflexivity.
    intros Ht ms. unfold advance, runTimeouts. simpl. rewrite Ht. simpl.
    destruct (N.leb_spec (clock w + 10000) (clock w + ms));
      destruct (N.ltb_spec ms 10000); simpl; try reflexivity; lia.
  - intros a Ha Ho.
    assert (E : playKonamiAudio browser w =
                setTimeout 10000
                  (upd (set_hasPlayedThisSession true)
                     (called_play (upd (set_audio (Some (rewound a))) (emit Match w))))).
    { unfold playKonamiAudio. open_world w. subst. now rewrite Ho. }
    rewrite E. repeat apply conj; reflexivity.
  - intros a Ha Ho. rewrite (playKonamiAudio_throws browser w a Hf Ha Ho).
    repeat apply conj; try reflexivity. exact Hf.
  - intros Ha. rewrite (playKonamiAudio_no_audio browser w Hf Ha).
    repeat apply conj; try reflexivity. exact Hf.
  - intros Hc. unfold preloadAudio. now rewrite Hc.
Qed.

Lemma playback_failure_bookkeeping_witness :
  playKonamiAudio noAudioBrowser silentPage = emit Match silentPage /\
  hasPlayedThisSession
    (self (playKonamiAudio
             {| audioCtor := true; playOutcome := fun _ => PlayRejects |} freshPage)) = true.
Proof.
  split.
  - exact (proj1 (proj1 (proj2 (proj2 (proj2
      (playback_failure_bookkeeping noAudioBrowser silentPage eq_refl)))) eq_refl)).
  - exact (proj1 (proj2 (proj1
      (playback_failure_bookkeeping
         {| audioCtor := true; playOutcome := fun _ => PlayRejects |} freshPage eq_refl)
      {| preload := "auto"; src := audioUrl; volumePercent := 70; currentTime := 0 |}
      eq_refl eq_refl))).
Defined.

(** ** The controller poller *)

Section ControllerPoller.

Variable browser : Browser.

(** The matcher and the gate leave the poller's state and the press
    events alone. *)
Lemma poller_playKonamiAudio w : poller (playKonamiAudio browser w) = poller w.
Proof.
  unfold playKonamiAudio. open_world w.
  destruct hasPlayedThisSession0; [reflexivity|].
  destruct audio0 as [a|]; [|reflexivity]. simpl.
  destruct (playOutcome browser plays0); reflexivity.
Qed.

Lemma presses_playKonamiAudio b w :
  presses b (playKonamiAudio browser w) = presses b w.
Proof.
  unfold playKonamiAudio, presses. open_world w.
  destruct hasPlayedThisSession0; [reflexivity|].
  destruct audio0 as [a|]; [|reflexivity]. simpl.
  destruct (playOutcome browser plays0); reflexivity.
Qed.

Lemma poller_handleControllerInput i w :
  poller (handleControllerInput browser i w) = poller w.
Proof.
  unfold handleControllerInput.
  destruct (hasPlayedThisSession (self w)); [reflexivity|].
  destruct (Js.strict_eq i _).
  - destruct (Nat.eqb _ _); [|reflexivity].
    change (poller (playKonamiAudio browser (push i w)) = poller (push i w)).
    apply poller_playKonamiAudio.
  - destruct (Js.strict_eq i _); reflexivity.
Qed.

Lemma presses_handleControllerInput b i w :
  presses b (handleControllerInput browser i w) = presses b w.
Proof.
  unfold handleControllerInput.
  destruct (hasPlayedThisSession (self w)); [reflexivity|].
  destruct (Js.strict_eq i _).
  - destruct (Nat.eqb _ _); [|reflexivity].
    change (presses b (playKonamiAudio browser (push i w)) = presses b (push i w)).
    apply presses_playKonamiAudio.
  - destruct (Js.strict_eq i _); reflexivity.
Qed.

Lemma poller_handleKeyboardInput k w :
  poller (handleKeyboardInput browser k w) = poller w.
Proof.
  unfold handleKeyboardInput.
  destruct (hasPlayedThisSession (self w)); [reflexivity|].
  destruct (_ || _).
  - destruct (Nat.eqb _ _); [|reflexivity].
    change (poller (playKonamiAudio browser (push k w)) = poller (push k w)).
    apply poller_playKonamiAudio.
  - destruct (_ || _); reflexivity.
Qed.

Lemma poller_advance ms w : poller (advance ms w) = poller w.
Proof.
  unfold advance, runTimeouts; simpl.
  destruct (List.filter _ (timeouts w)); reflexivity.
Qed.

Lemma presses_upd b f w : presses b (upd f w) = presses b w.
Proof. reflexivity. Qed.

Lemma truthy_or_false v : Js.truthy (Js.or v (Js.Bool false)) = Js.truthy v.
Proof. unfold Js.or. now destruct (Js.truthy v) eqn:E. Qed.

(** [checkButtonPress] records the sampled level whatever it did, ... *)
Lemma poller_checkButtonPress b v w :
  poller (checkButtonPress browser b v w) =
  {| p_index := p_index (poller w);
     p_previous := <[b := v]> (p_previous (poller w));
     p_handle := p_handle (poller w);
     p_intervals := p_intervals (poller w);
     p_next := p_next (poller w) |}.
Proof.
  unfold checkButtonPress. destruct (Js.truthy v && negb _).
  - pose proof (poller_handleControllerInput b (emit (Press b) w)) as E.
    set (w' := handleControllerInput browser b (emit (Press b) w)) in *.
    unfold poller in *. simpl in *. now inversion E.
  - reflexivity.
Qed.

(** ... and emits a press event exactly on a rising edge. *)
Lemma presses_checkButtonPress b' b v w :
  presses b' (checkButtonPress browser b v w) =
  presses b' w +
  (if String.eqb b b' && risingEdge v (previousButtonStates (self w)) b then 1 else 0).
Proof.
  unfold checkButtonPress, risingEdge. rewrite truthy_or_false.
  destruct (Js.truthy v && negb _).
  - rewrite presses_upd, presses_handleControllerInput. unfold presses; simpl.
    rewrite andb_true_r. destruct (String.eqb b b'); simpl; lia.
  - rewrite presses_upd, andb_false_r. lia.
Qed.

(** One tick with the tracked gamepad there: the six buttons in turn. *)
Lemma pollGamepad_present gamepads pad w :
  gamepadIndex (self w) <> (-1)%Z ->
  mjoin (Js.index gamepads (gamepadIndex (self w))) = Some pad ->
  pollGamepad browser gamepads w =
  checkButtonPress browser "b" (pressed pad 1)
    (checkButtonPress browser "a" (pressed pad 0)
       (checkButtonPress browser "right" (pressed pad 15)
          (checkButtonPress browser "left" (pressed pad 14)
             (checkButtonPress browser "down" (pressed pad 13)
                (checkButtonPress browser "up" (pressed pad 12) w))))).
Proof.
  intros Hi Hp. unfold pollGamepad.
  destruct (Z.eqb_spec (gamepadIndex (self w)) (-1)); [easy|].
  now rewrite Hp.
Qed.

Lemma pollGamepad_present_poller gamepads pad w :
  gamepadIndex (self w) <> (-1)%Z ->
  mjoin (Js.index gamepads (gamepadIndex (self w))) = Some pad ->
  poller (pollGamepad browser gamepads w) =
  {| p_index := gamepadIndex (self w);
     p_previous :=
       <["b" := pressed pad 1]> (<["a" := pressed pad 0]> (<["right" := pressed pad 15]>
       (<["left" := pressed pad 14]> (<["down" := pressed pad 13]>
       (<["up" := pressed pad 12]> (previousButtonStates (self w)))))));
     p_handle := gamepadPolling (self w);
     p_intervals := intervals w;
     p_next := nextHandle w |}.
Proof.
  intros Hi Hp. rewrite (pollGamepad_present gamepads pad w Hi Hp).
  rewrite !poller_checkButtonPress. reflexivity.
Qed.

Lemma risingEdge_insert_ne v (m : gmap string Js.Val) b b' v' :
  b' <> b -> risingEdge v (<[b' := v']> m) b = risingEdge v m b.
Proof.
  intros Hne. unfold risingEdge, Js.prop. now rewrite lookup_insert_ne.
Qed.

Lemma previous_as_poller w : previousButtonStates (self w) = p_previous (poller w).
Proof. reflexivity. Qed.

(** Over one tick, a tracked button gets a press event exactly when its
    sampled level is a rising edge against the level recorded before. *)
Lemma presses_pollGamepad_present b i gamepads pad w :
  In (b, i) trackedButtons ->
  gamepadIndex (self w) <> (-1)%Z ->
  mjoin (Js.index gamepads (gamepadIndex (self w))) = Some pad ->
  presses b (pollGamepad browser gamepads w) =
  presses b w +
  (if risingEdge (pressed pad i) (previousButtonStates (self w)) b then 1 else 0).
Proof.
  intros Hin Hi Hp. rewrite (pollGamepad_present gamepads pad w Hi Hp).
  rewrite !presses_checkButtonPress.
  rewrite !previous_as_poller, !poller_checkButtonPress.
  cbn [p_previous].
  simpl in Hin.
  repeat (destruct Hin as [Hin|Hin]; [inversion Hin; subst; clear Hin|]);
    [ .. | contradiction ];
    cbn [String.eqb Ascii.eqb Bool.eqb andb];
    rewrite ?risingEdge_insert_ne by discriminate;
    lia.
Qed.

(** The recorded level of a tracked button after a tick is the level
    that the tick sampled. *)
Lemma previous_pollGamepad_present b i gamepads pad w :
  In (b, i) trackedButtons ->
  gamepadIndex (self w) <> (-1)%Z ->
  mjoin (Js.index gamepads (gamepadIndex (self w))) = Some pad ->
  previousButtonStates (self (pollGamepad browser gamepads w)) !! b =
  Some (pressed pad i).
Proof.
  intros Hin Hi Hp.
  rewrite previous_as_poller, (pollGamepad_present_poller gamepads pad w Hi Hp).
  cbn [p_previous]. simpl in Hin.
  repeat (destruct Hin as [Hin|Hin]; [inversion Hin; subst; clear Hin|]);
    [ .. | contradiction ];
    now simplify_map_eq.
Qed.

(** A tick of the one live interval is one call of [pollGamepad]. *)
Lemma tick_one_interval gamepads h w :
  intervals w = [h] -> tick browser gamepads w = pollGamepad browser gamepads w.
Proof.
  intros Hv. unfold tick. rewrite Hv. simpl. rewrite Hv. simpl.
  now rewrite Pos.eqb_refl.
Qed.

Lemma tick_no_interval gamepads w :
  intervals w = [] -> tick browser gamepads w = w.
Proof. intros Hv. unfold tick. now rewrite Hv. Qed.

End ControllerPoller.

Section HeldButton.

Variable browser : Browser.

Lemma pressed_down pad i : buttons pad !! i = Some true -> pressed pad i = Js.Bool true.
Proof. intros H. unfold pressed. now rewrite H. Qed.

(** Ticks during which a tracked button is down all the time: one press
    event on the first of them if the recorded level was not pressed,
    none otherwise, however many ticks there are. *)
Lemma presses_held b i h :
  In (b, i) trackedButtons ->
  forall ticks w,
    gamepadIndex (self w) <> (-1)%Z ->
    intervals w = [h] ->
    Forall (fun gamepads => buttonDown gamepads (gamepadIndex (self w)) i) ticks ->
    presses b (run browser w (map PollTick ticks)) =
    presses b w +
    match ticks with
    | [] => 0
    | _ :: _ => if Js.truthy (Js.prop (previousButtonStates (self w)) b) then 0 else 1
    end.
Proof.
  intros Hin. induction ticks as [|gamepads ticks IH]; intros w Hi Hv Hall.
  - simpl. lia.
  - inversion Hall as [|? ? [pad [Hpad Hdown]] Hrest]; subst.
    change (run browser w (map PollTick (gamepads :: ticks)))
      with (run browser (tick browser gamepads w) (map PollTick ticks)).
    rewrite (tick_one_interval browser gamepads h w Hv).
    pose proof (pollGamepad_present_poller browser gamepads pad w Hi Hpad) as P.
    pose proof (previous_pollGamepad_present browser b i gamepads pad w Hin Hi Hpad) as Hprev.
    pose proof (presses_pollGamepad_present browser b i gamepads pad w Hin Hi Hpad) as Hpress.
    set (w' := pollGamepad browser gamepads w) in *.
    assert (Hi' : gamepadIndex (self w') = gamepadIndex (self w))
      by exact (f_equal p_index P).
    assert (Hv' : intervals w' = [h])
      by (rewrite <- Hv; exact (f_equal p_intervals P)).
    rewrite IH; [| now rewrite Hi' | exact Hv' | now rewrite Hi' ].
    assert (Ht : Js.truthy (Js.prop (previousButtonStates (self w')) b) = true).
    { unfold Js.prop. now rewrite Hprev, (pressed_down pad i Hdown). }
    rewrite Hpress, (pressed_down pad i Hdown), Ht.
    unfold risingEdge. simpl Js.truthy at 1.
    destruct ticks; destruct (Js.truthy (Js.prop (previousButtonStates (self w)) b));
      simpl; lia.
Qed.

(** *** The poll loop's life *)

Lemma onePollLoop_poller w w' : poller w' = poller w -> onePollLoop w -> onePollLoop w'.
Proof.
  intros E H. unfold onePollLoop in *.
  change (p_intervals (poller w') =
          match p_handle (poller w') with Some h => [h] | None => [] end).
  now rewrite E.
Qed.

Lemma onePollLoop_startGamepadPolling w :
  onePollLoop w -> onePollLoop (startGamepadPolling w).
Proof.
  unfold onePollLoop, startGamepadPolling.
  destruct (gamepadPolling (self w)) eqn:E; intros H.
  - now rewrite E.
  - simpl. now rewrite H.
Qed.

Lemma onePollLoop_pollGamepad gamepads w :
  onePollLoop w -> onePollLoop (pollGamepad browser gamepads w).
Proof.
  intros H.
  destruct (Z.eq_dec (gamepadIndex (self w)) (-1)%Z) as [E|E].
  - unfold pollGamepad. rewrite E. exact H.
  - destruct (mjoin (Js.index gamepads (gamepadIndex (self w)))) as [pad|] eqn:Hp.
    + pose proof (pollGamepad_present_poller browser gamepads pad w E Hp) as P.
      unfold onePollLoop in *.
      change (p_intervals (poller (pollGamepad browser gamepads w)) =
              match p_handle (poller (pollGamepad browser gamepads w)) with
              | Some h => [h] | None => [] end).
      rewrite P. exact H.
    + unfold pollGamepad. destruct (Z.eqb_spec (gamepadIndex (self w)) (-1)); [easy|].
      rewrite Hp. unfold onePollLoop in *. simpl.
      destruct (gamepadPolling (self w)) as [h|]; simpl; rewrite H; simpl.
      * now rewrite Pos.eqb_refl.
      * reflexivity.
Qed.

Lemma onePollLoop_tick gamepads w : onePollLoop w -> onePollLoop (tick browser gamepads w).
Proof.
  intros H. pose proof H as H'. unfold onePollLoop in H'.
  destruct (gamepadPolling (self w)) as [h|].
  - rewrite (tick_one_interval browser gamepads h w H').
    now apply onePollLoop_pollGamepad.
  - now rewrite (tick_no_interval browser gamepads w H').
Qed.

Lemma onePollLoop_step s w : onePollLoop w -> onePollLoop (step browser w s).
Proof.
  intros H. destruct s; simpl.
  - apply (onePollLoop_poller w); [apply poller_handleKeyboardInput | exact H].
  - unfold onGamepadConnected.
    apply onePollLoop_startGamepadPolling. exact H.
  - unfold onGamepadDisconnected.
    destruct (gamepadIndex _ =? index)%Z; exact H.
  - now apply onePollLoop_tick.
  - apply (onePollLoop_poller w); [apply poller_advance | exact H].
Qed.

Lemma onePollLoop_run l : forall w, onePollLoop w -> onePollLoop (run browser w l).
Proof.
  induction l as [|s l IH]; intros w H; [exact H|].
  apply IH. now apply onePollLoop_step.
Qed.

Lemma scanGamepads_spec gamepads : forall i w,
  scanGamepads i gamepads w =
  match list_find is_Some gamepads with
  | Some (n, _) => startGamepadPolling (upd (set_gamepadIndex (i + Z.of_nat n)) w)
  | None => w
  end.
Proof.
  induction gamepads as [|g gamepads IH]; intros i w; [reflexivity|].
  destruct g as [pad|]; simpl.
  - now rewrite Z.add_0_r.
  - rewrite IH. destruct (list_find is_Some gamepads) as [[n ?]|]; simpl; [|reflexivity].
    do 3 f_equal. lia.
Qed.

Lemma onePollLoop_newKonamiCode gamepads : onePollLoop (newKonamiCode browser gamepads).
Proof.
  unfold newKonamiCode, init, setupGamepadListener, checkExistingGamepads.
  rewrite scanGamepads_spec.
  assert (H : forall w, onePollLoop w -> onePollLoop (preloadAudio browser w)).
  { intros w H. unfold preloadAudio. destruct (audioCtor browser); exact H. }
  destruct (list_find is_Some gamepads) as [[n ?]|].
  - apply onePollLoop_startGamepadPolling. apply (H _). reflexivity.
  - apply (H _). reflexivity.
Qed.

Lemma gamepadIndex_newKonamiCode gamepads :
  gamepadIndex (self (newKonamiCode browser gamepads)) = firstGamepad gamepads.
Proof.
  unfold newKonamiCode, init, setupGamepadListener, checkExistingGamepads, firstGamepad.
  rewrite scanGamepads_spec.
  destruct (list_find is_Some gamepads) as [[n ?]|].
  - unfold startGamepadPolling. simpl.
    destruct (gamepadPolling _); reflexivity.
  - unfold preloadAudio. destruct (audioCtor browser); reflexivity.
Qed.

Lemma previous_newKonamiCode gamepads :
  previousButtonStates (self (newKonamiCode browser gamepads)) = ∅.
Proof.
  unfold newKonamiCode, init, setupGamepadListener, checkExistingGamepads.
  rewrite scanGamepads_spec.
  destruct (list_find is_Some gamepads) as [[n ?]|].
  - unfold startGamepadPolling. simpl.
    destruct (gamepadPolling _); unfold preloadAudio;
      destruct (audioCtor browser); reflexivity.
  - unfold preloadAudio. destruct (audioCtor browser); reflexivity.
Qed.

End HeldButton.

(** C9. A tracked button gets a press event from [checkButtonPress] exactly
    when the sampled level is pressed and the recorded level is not (so none
    while it stays pressed and none on release), and the sampled level is
    recorded whether or not an event was emitted; the same holds over a whole
    poll tick. Hence a button, recorded as not pressed, that is down during
    any number of consecutive ticks gets exactly one press event. *)
Theorem press_only_on_rising_edge
    (browser : Browser) (w : World) (b : string) (i : nat) :
  In (b, i) trackedButtons ->
  (forall v,
     presses b (checkButtonPress browser b v w) =
       presses b w + (if risingEdge v (previousButtonStates (self w)) b then 1 else 0) /\
     previousButtonStates (self (checkButtonPress browser b v w)) !! b = Some v) /\
  (forall gamepads pad,
     gamepadIndex (self w) <> (-1)%Z ->
     mjoin (Js.index gamepads (gamepadIndex (self w))) = Some pad ->
     presses b (pollGamepad browser gamepads w) =
       presses b w +
       (if risingEdge (pressed pad i) (previousButtonStates (self w)) b then 1 else 0) /\
     previousButtonStates (self (pollGamepad browser gamepads w)) !! b =
       Some (pressed pad i)) /\
  (forall h ticks,
     gamepadIndex (self w) <> (-1)%Z ->
     intervals w = [h] ->
     Js.truthy (Js.prop (previousButtonStates (self w)) b) = false ->
     ticks <> [] ->
     Forall (fun gamepads => buttonDown gamepads (gamepadIndex (self w)) i) ticks ->
     presses b (run browser w (map PollTick ticks)) = S (presses b w)).
Proof.
  intros Hin. repeat apply conj.
  - intros v. split.
    + rewrite presses_checkButtonPress, String.eqb_refl. reflexivity.
    + rewrite previous_as_poller, poller_checkButtonPress. cbn [p_previous].
      apply lookup_insert_eq.
  - intros gamepads pad Hi Hp. split.
    + now apply presses_pollGamepad_present.
    + now apply previous_pollGamepad_present.
  - intros h ticks Hi Hv Hprev Hne Hall.
    rewrite (presses_held browser b i h Hin ticks w Hi Hv Hall), Hprev.
    destruct ticks; [easy | lia].
Qed.

Lemma press_only_on_rising_edge_witness :
  presses "up"
    (run workingBrowser (run workingBrowser freshPage [GamepadConnected 0])
       (map PollTick [[Some (padWith [12])]; [Some (padWith [12; 0])];
                      [Some (padWith [12])]])) = 1.
Proof.
  refine (proj2 (proj2 (press_only_on_rising_edge workingBrowser
                          (run workingBrowser freshPage [GamepadConnected 0]) "up" 12
                          ltac:(simpl; auto)))
            1%positive
            [[Some (padWith [12])]; [Some (padWith [12; 0])]; [Some (padWith [12])]]
            ltac:(vm_compute; discriminate) eq_refl eq_refl
            ltac:(discriminate) _).
  repeat match goal with |- Forall _ _ => constructor end;
    unfold buttonDown; eexists; split; vm_compute; reflexivity.
Defined.

(** C10. The constructor records no level, and a missing level reads as not
    pressed: a tracked button that is down at the first tick after polling
    began gets its press event at that tick, and only that one if it stays
    down. *)
Theorem unknown_level_counts_as_released
    (browser : Browser) (w : World) (b : string) (i : nat) (h : positive)
    (gamepads : list (option Gamepad)) (connected : list (option Gamepad)) :
  In (b, i) trackedButtons ->
  previousButtonStates (self w) !! b = None ->
  gamepadIndex (self w) <> (-1)%Z ->
  intervals w = [h] ->
  buttonDown gamepads (gamepadIndex (self w)) i ->
  previousButtonStates (self (newKonamiCode browser connected)) = ∅ /\
  Js.or (Js.prop (previousButtonStates (self w)) b) (Js.Bool false) = Js.Bool false /\
  presses b (run browser w [PollTick gamepads]) = S (presses b w) /\
  presses b (run browser w [PollTick gamepads; PollTick gamepads]) = S (presses b w).
Proof.
  intros Hin Hnone Hi Hv Hdown.
  assert (Hp : Js.prop (previousButtonStates (self w)) b = Js.Undefined).
  { unfold Js.prop. now rewrite Hnone. }
  repeat apply conj.
  - apply previous_newKonamiCode.
  - now rewrite Hp.
  - change [PollTick gamepads] with (map PollTick [gamepads]).
    rewrite (presses_held browser b i h Hin [gamepads] w Hi Hv) by (repeat constructor; auto).
    rewrite Hp. simpl. lia.
  - change [PollTick gamepads; PollTick gamepads] with (map PollTick [gamepads; gamepads]).
    rewrite (presses_held browser b i h Hin [gamepads; gamepads] w Hi Hv)
      by (repeat constructor; auto).
    rewrite Hp. simpl. lia.
Qed.

Lemma unknown_level_counts_as_released_witness :
  presses "a"
    (run workingBrowser (run workingBrowser freshPage [GamepadConnected 0])
       [PollTick [Some (padWith [0])]]) = 1.
Proof.
  refine (proj1 (proj2 (proj2
            (unknown_level_counts_as_released workingBrowser
               (run workingBrowser freshPage [GamepadConnected 0]) "a" 0 1%positive
               [Some (padWith [0])] []
               ltac:(simpl; auto 10) ltac:(vm_compute; reflexivity)
               ltac:(vm_compute; discriminate) eq_refl _)))).
  unfold buttonDown. eexists; split; vm_compute; reflexivity.
Defined.

(** C7, on the code. After the disconnect event of the tracked gamepad the
    next ticks return at the first line of [pollGamepad]: the index is -1 but
    the handle is still held and its interval is still live. Only where no
    event came first, and the tick itself finds the gamepad gone, is the
    interval cleared and the handle dropped. *)
Theorem disconnect_event_leaves_poll_loop_running :
  (gamepadIndex (self (run workingBrowser freshPage
      [GamepadConnected 0; PollTick [Some (padWith [])];
       GamepadDisconnected 0; PollTick [None]; PollTick []])) = (-1)%Z /\
   gamepadPolling (self (run workingBrowser freshPage
      [GamepadConnected 0; PollTick [Some (padWith [])];
       GamepadDisconnected 0; PollTick [None]; PollTick []])) = Some 1%positive /\
   intervals (run workingBrowser freshPage
      [GamepadConnected 0; PollTick [Some (padWith [])];
       GamepadDisconnected 0; PollTick [None]; PollTick []]) = [1%positive]) /\
  (gamepadIndex (self (run workingBrowser freshPage
      [GamepadConnected 0; PollTick [Some (padWith [])]; PollTick [None]])) = (-1)%Z /\
   gamepadPolling (self (run workingBrowser freshPage
      [GamepadConnected 0; PollTick [Some (padWith [])]; PollTick [None]])) = None /\
   intervals (run workingBrowser freshPage
      [GamepadConnected 0; PollTick [Some (padWith [])]; PollTick [None]]) = []).
Proof. repeat split; reflexivity. Qed.

(** The same for every page: once the tracked gamepad's disconnect event
    has come, no number of ticks stops the poll loop. *)
Lemma poll_loop_survives_disconnect_event
    (browser : Browser) (w : World) (h : positive) (ticks : list (list (option Gamepad))) :
  gamepadPolling (self w) = Some h ->
  intervals w = [h] ->
  poller (run browser w
            (GamepadDisconnected (gamepadIndex (self w)) :: map PollTick ticks)) =
  {| p_index := -1; p_previous := previousButtonStates (self w);
     p_handle := Some h; p_intervals := [h]; p_next := nextHandle w |}.
Proof.
  intros Hh Hv. simpl. unfold onGamepadDisconnected. simpl.
  rewrite Z.eqb_refl.
  set (w1 := upd (set_gamepadIndex (-1)) _).
  assert (E : forall l, run browser w1 (map PollTick l) = w1).
  { induction l as [|g l IH]; [reflexivity|].
    simpl. rewrite (tick_one_interval browser g h w1 Hv).
    unfold pollGamepad. simpl. exact IH. }
  fold (run browser w1 (map PollTick ticks)).
  rewrite E. unfold poller; simpl. now rewrite Hh, Hv.
Qed.

(** The tick that finds the tracked gamepad gone does stop the loop. *)
Lemma missing_gamepad_stops_poll_loop
    (browser : Browser) (w : World) (h : positive) (gamepads : list (option Gamepad)) :
  gamepadIndex (self w) <> (-1)%Z ->
  gamepadPolling (self w) = Some h ->
  intervals w = [h] ->
  mjoin (Js.index gamepads (gamepadIndex (self w))) = None ->
  poller (run browser w [PollTick gamepads]) =
  {| p_index := -1; p_previous := previousButtonStates (self w);
     p_handle := None; p_intervals := []; p_next := nextHandle w |}.
Proof.
  intros Hi Hh Hv Hp. simpl. rewrite (tick_one_interval browser gamepads h w Hv).
  unfold pollGamepad. destruct (Z.eqb_spec (gamepadIndex (self w)) (-1)); [easy|].
  rewrite Hp. unfold poller; simpl. rewrite Hh. simpl. rewrite Hv. simpl.
  now rewrite Pos.eqb_refl.
Qed.

(** C8 as stated fails: a later connection event is not ignored, the
    gamepad that connected last becomes the tracked one, whether the first
    was found by an event or by the scan at start-up. *)
Lemma later_connection_replaces_tracked_index :
  gamepadIndex (self (run workingBrowser freshPage [GamepadConnected 0])) = 0%Z /\
  gamepadIndex (self (run workingBrowser freshPage
                        [GamepadConnected 0; GamepadConnected 1])) = 1%Z /\
  gamepadIndex (self (newKonamiCode workingBrowser [Some (padWith [])])) = 0%Z /\
  gamepadIndex (self (run workingBrowser (newKonamiCode workingBrowser [Some (padWith [])])
                        [GamepadConnected 1])) = 1%Z.
Proof. repeat split; reflexivity. Qed.

(** C8, amended. There is one tracked index and, at any time, at most one
    poll loop. The scan at start-up tracks the first gamepad that is there;
    every connection event makes the gamepad that connected the tracked one,
    and a disconnection event clears the index only if it names the tracked
    gamepad. *)
Theorem latest_connection_is_tracked
    (browser : Browser) (connected : list (option Gamepad))
    (l : list Stimulus) (index : Z) :
  gamepadIndex (self (newKonamiCode browser connected)) = firstGamepad connected /\
  gamepadIndex (self (run browser (newKonamiCode browser connected)
                        (l ++ [GamepadConnected index]))) = index /\
  gamepadIndex (self (run browser (newKonamiCode browser connected)
                        (l ++ [GamepadDisconnected index]))) =
    (if (gamepadIndex (self (run browser (newKonamiCode browser connected) l)) =? index)%Z
     then -1
     else gamepadIndex (self (run browser (newKonamiCode browser connected) l)))%Z /\
  onePollLoop (run browser (newKonamiCode browser connected) l) /\
  length (intervals (run browser (newKonamiCode browser connected) l)) <= 1.
Proof.
  assert (H1 : onePollLoop (run browser (newKonamiCode browser connected) l)).
  { apply onePollLoop_run, onePollLoop_newKonamiCode. }
  repeat apply conj.
  - apply gamepadIndex_newKonamiCode.
  - unfold run. rewrite fold_left_app. simpl. unfold onGamepadConnected.
    unfold startGamepadPolling. simpl.
    destruct (gamepadPolling _); reflexivity.
  - unfold run. rewrite fold_left_app. simpl. unfold onGamepadDisconnected. simpl.
    destruct (_ =? index)%Z; reflexivity.
  - exact H1.
  - unfold onePollLoop in H1. rewrite H1.
    destruct (gamepadPolling _); simpl; lia.
Qed.


(** ** The states a page can reach *)

Section Reachable.

Variable browser : Browser.

Lemma handleKeyboardInput_cases k w :
  hasPlayedThisSession (self w) = false ->
  (prefixLength w < 9 /\ handleKeyboardInput browser k w = push k w) \/
  handleKeyboardInput browser k w = resetSequence (playKonamiAudio browser (push k w)) \/
  handleKeyboardInput browser k w = resetSequence w \/
  handleKeyboardInput browser k w = push k (resetSequence w).
Proof.
  intros Hf. destruct (keyMatches k (prefixLength w)) eqn:Hm.
  - pose proof (keyMatches_lt k _ Hm).
    destruct (Nat.eq_dec (prefixLength w) 9) as [E|E].
    + right; left. now apply handleKeyboardInput_complete.
    + left. split; [lia|]. now apply handleKeyboardInput_advance.
  - rewrite handleKeyboardInput_mismatch by assumption.
    destruct (keyMatches k 0); auto.
Qed.

Lemma handleControllerInput_cases b w :
  hasPlayedThisSession (self w) = false ->
  (prefixLength w < 9 /\ handleControllerInput browser b w = push b w) \/
  handleControllerInput browser b w = resetSequence (playKonamiAudio browser (push b w)) \/
  handleControllerInput browser b w = resetSequence w \/
  handleControllerInput browser b w = push b (resetSequence w).
Proof.
  intros Hf. destruct (buttonMatches b (prefixLength w)) eqn:Hm.
  - pose proof (buttonMatches_lt b _ Hm).
    destruct (Nat.eq_dec (prefixLength w) 9) as [E|E].
    + right; left. now apply handleControllerInput_complete.
    + left. split; [lia|]. now apply handleControllerInput_advance.
  - rewrite handleControllerInput_mismatch by assumption.
    destruct (buttonMatches b 0); auto.
Qed.

(** [playKonamiAudio] either arms the cooldown or leaves the gate as it was. *)
Lemma GateOk_play_then_reset w :
  hasPlayedThisSession (self w) = false ->
  timeouts w = [] ->
  GateOk (gate (resetSequence (playKonamiAudio browser w))).
Proof.
  intros Hf Ht. unfold playKonamiAudio, GateOk. open_world w. subst.
  destruct audio0 as [a|]; simpl.
  - destruct (playOutcome browser plays0); simpl.
    + repeat split; [lia|]. eexists; split; [reflexivity | lia].
    + repeat split; [lia|]. eexists; split; [reflexivity | lia].
    + split; [lia | reflexivity].
  - split; [lia | reflexivity].
Qed.

Lemma GateOk_cases s w w' :
  GateOk (gate w) ->
  hasPlayedThisSession (self w) = false ->
  (prefixLength w < 9 /\ w' = push s w) \/
  w' = resetSequence (playKonamiAudio browser (push s w)) \/
  w' = resetSequence w \/
  w' = push s (resetSequence w) ->
  GateOk (gate w').
Proof.
  intros [Hlen Hg] Hf Hc. simpl in Hg. rewrite Hf in Hg.
  destruct Hc as [[Hlt ->] | [-> | [-> | ->]]].
  - unfold GateOk; simpl. rewrite Hf, length_app; simpl.
    unfold prefixLength in Hlt. split; [lia | exact Hg].
  - now apply GateOk_play_then_reset.
  - unfold GateOk; simpl. rewrite Hf. split; [lia | exact Hg].
  - unfold GateOk; simpl. rewrite Hf. split; [lia | exact Hg].
Qed.

Lemma GateOk_handleKeyboardInput k w :
  GateOk (gate w) -> GateOk (gate (handleKeyboardInput browser k w)).
Proof.
  intros H. destruct (hasPlayedThisSession (self w)) eqn:Hf.
  - now rewrite handleKeyboardInput_suppressed.
  - apply (GateOk_cases k w); auto using handleKeyboardInput_cases.
Qed.

Lemma GateOk_handleControllerInput b w :
  GateOk (gate w) -> GateOk (gate (handleControllerInput browser b w)).
Proof.
  intros H. destruct (hasPlayedThisSession (self w)) eqn:Hf.
  - now rewrite handleControllerInput_suppressed.
  - apply (GateOk_cases b w); auto using handleControllerInput_cases.
Qed.

Lemma GateOk_checkButtonPress b v w :
  GateOk (gate w) -> GateOk (gate (checkButtonPress browser b v w)).
Proof.
  intros H. unfold checkButtonPress. destruct (Js.truthy v && negb _).
  - change (GateOk (gate (handleControllerInput browser b (emit (Press b) w)))).
    now apply GateOk_handleControllerInput.
  - exact H.
Qed.

Lemma GateOk_pollGamepad gamepads w :
  GateOk (gate w) -> GateOk (gate (pollGamepad browser gamepads w)).
Proof.
  intros H. unfold pollGamepad.
  destruct (gamepadIndex (self w) =? -1)%Z; [exact H|].
  destruct (mjoin _) as [pad|].
  - cbv zeta. auto 10 using GateOk_checkButtonPress.
  - cbv zeta. simpl gamepadPolling.
    destruct (gamepadPolling (self w)); exact H.
Qed.

Lemma GateOk_tick gamepads w :
  GateOk (gate w) -> GateOk (gate (tick browser gamepads w)).
Proof.
  unfold tick. generalize (intervals w) as hs. intros hs. revert w.
  induction hs as [|h hs IH]; intros w H; [exact H|].
  simpl. apply IH. destruct (existsb _ _); [|exact H].
  now apply GateOk_pollGamepad.
Qed.

Lemma GateOk_advance ms w : GateOk (gate w) -> GateOk (gate (advance ms w)).
Proof.
  intros [Hlen Hg]. simpl in Hlen, Hg.
  destruct (hasPlayedThisSession (self w)) eqn:Hf.
  - destruct Hg as [[d [Ht Hlt]] He].
    destruct (N.le_gt_cases d (clock w + ms)) as [Hd|Hd].
    + rewrite (gate_advance_due d ms w Ht Hd). split; simpl; [exact Hlen | reflexivity].
    + rewrite (gate_advance_before d ms w Ht Hd). split; simpl; [exact Hlen|].
      rewrite Hf. split; [|exact He]. exists d. split; [reflexivity | lia].
  - unfold advance, runTimeouts, GateOk. simpl. rewrite Hg. simpl. rewrite Hf.
    split; [exact Hlen | reflexivity].
Qed.

Lemma GateOk_step s w : GateOk (gate w) -> GateOk (gate (step browser w s)).
Proof.
  intros H. destruct s; simpl.
  - now apply GateOk_handleKeyboardInput.
  - now rewrite gate_onGamepadConnected.
  - now rewrite gate_onGamepadDisconnected.
  - now apply GateOk_tick.
  - now apply GateOk_advance.
Qed.

Lemma GateOk_newKonamiCode connected : GateOk (gate (newKonamiCode browser connected)).
Proof.
  unfold newKonamiCode, init, setupGamepadListener, checkExistingGamepads.
  rewrite scanGamepads_spec.
  assert (H : forall w, GateOk (gate w) -> GateOk (gate (preloadAudio browser w))).
  { intros w H. unfold preloadAudio. destruct (audioCtor browser); exact H. }
  destruct (list_find is_Some connected) as [[n ?]|].
  - rewrite gate_startGamepadPolling. apply (H _). split; simpl; [lia | reflexivity].
  - apply (H _). split; simpl; [lia | reflexivity].
Qed.

(** X1. Every state a page reaches has a well-formed gate: fewer than ten
    symbols are entered; while the flag is set exactly one timeout is pending,
    not yet due, and nothing is entered; while the flag is clear no timeout
    is pending. *)
Lemma reachable_gate_ok connected l :
  GateOk (gate (run browser (newKonamiCode browser connected) l)).
Proof.
  generalize (GateOk_newKonamiCode connected).
  generalize (newKonamiCode browser connected) as w. revert l.
  induction l as [|s l IH]; intros w H; [exact H|].
  apply IH. now apply GateOk_step.
Qed.

End Reachable.


(** ** More on the matcher *)

Section EnteredSequence.

Variable browser : Browser.

Lemma validFrom_snoc l : forall n s,
  validFrom n (l ++ [s]) = validFrom n l && symbolOk (n + length l) s.
Proof.
  induction l as [|x l IH]; intros n s; simpl.
  - now rewrite Nat.add_0_r, andb_true_r.
  - rewrite IH, andb_assoc. do 2 f_equal. lia.
Qed.

(** What one press can do to the entered sequence. *)
Lemma sequence_handleKeyboardInput k w :
  currentSequence (self (handleKeyboardInput browser k w)) = currentSequence (self w) \/
  (currentSequence (self (handleKeyboardInput browser k w)) = (currentSequence (self w) ++ [k])%list /\
   keyMatches k (prefixLength w) = true) \/
  currentSequence (self (handleKeyboardInput browser k w)) = [] \/
  (currentSequence (self (handleKeyboardInput browser k w)) = [k] /\ keyMatches k 0 = true).
Proof.
  destruct (hasPlayedThisSession (self w)) eqn:Hf.
  - left. now rewrite handleKeyboardInput_suppressed.
  - destruct (keyMatches k (prefixLength w)) eqn:Hm.
    + destruct (Nat.eq_dec (prefixLength w) 9) as [E|E].
      * right; right; left. now rewrite handleKeyboardInput_complete.
      * right; left. now rewrite handleKeyboardInput_advance.
    + rewrite handleKeyboardInput_mismatch by assumption.
      destruct (keyMatches k 0) eqn:H0; auto.
Qed.

Lemma sequence_handleControllerInput b w :
  currentSequence (self (handleControllerInput browser b w)) = currentSequence (self w) \/
  (currentSequence (self (handleControllerInput browser b w)) = (currentSequence (self w) ++ [b])%list /\
   buttonMatches b (prefixLength w) = true) \/
  currentSequence (self (handleControllerInput browser b w)) = [] \/
  (currentSequence (self (handleControllerInput browser b w)) = [b] /\ buttonMatches b 0 = true).
Proof.
  destruct (hasPlayedThisSession (self w)) eqn:Hf.
  - left. now rewrite handleControllerInput_suppressed.
  - destruct (buttonMatches b (prefixLength w)) eqn:Hm.
    + destruct (Nat.eq_dec (prefixLength w) 9) as [E|E].
      * right; right; left. now rewrite handleControllerInput_complete.
      * right; left. now rewrite handleControllerInput_advance.
    + rewrite handleControllerInput_mismatch by assumption.
      destruct (buttonMatches b 0) eqn:H0; auto.
Qed.

Lemma valid_handleKeyboardInput k w :
  validFrom 0 (currentSequence (self w)) = true ->
  validFrom 0 (currentSequence (self (handleKeyboardInput browser k w))) = true.
Proof.
  intros H.
  destruct (sequence_handleKeyboardInput k w) as [E | [[E Hm] | [E | [E Hm]]]]; rewrite E.
  - exact H.
  - rewrite validFrom_snoc, H. unfold symbolOk. simpl.
    unfold prefixLength in Hm. now rewrite Hm.
  - reflexivity.
  - simpl. unfold symbolOk. now rewrite Hm.
Qed.

Lemma valid_handleControllerInput b w :
  validFrom 0 (currentSequence (self w)) = true ->
  validFrom 0 (currentSequence (self (handleControllerInput browser b w))) = true.
Proof.
  intros H.
  destruct (sequence_handleControllerInput b w) as [E | [[E Hm] | [E | [E Hm]]]]; rewrite E.
  - exact H.
  - rewrite validFrom_snoc, H. unfold symbolOk. simpl.
    unfold prefixLength in Hm. rewrite Hm. apply orb_true_r.
  - reflexivity.
  - simpl. unfold symbolOk. rewrite Hm. now rewrite orb_true_r.
Qed.

Lemma sequence_checkButtonPress b v w :
  currentSequence (self (checkButtonPress browser b v w)) = currentSequence (self w) \/
  currentSequence (self (checkButtonPress browser b v w)) =
  currentSequence (self (handleControllerInput browser b (emit (Press b) w))).
Proof.
  unfold checkButtonPress. destruct (Js.truthy v && negb _); [right | left]; reflexivity.
Qed.

Lemma valid_checkButtonPress b v w :
  validFrom 0 (currentSequence (self w)) = true ->
  validFrom 0 (currentSequence (self (checkButtonPress browser b v w))) = true.
Proof.
  intros H. destruct (sequence_checkButtonPress b v w) as [E|E]; rewrite E.
  - exact H.
  - now apply valid_handleControllerInput.
Qed.

Lemma valid_pollGamepad gamepads w :
  validFrom 0 (currentSequence (self w)) = true ->
  validFrom 0 (currentSequence (self (pollGamepad browser gamepads w))) = true.
Proof.
  intros H. unfold pollGamepad.
  destruct (gamepadIndex (self w) =? -1)%Z; [exact H|].
  destruct (mjoin _) as [pad|].
  - cbv zeta. auto 10 using valid_checkButtonPress.
  - cbv zeta. simpl gamepadPolling.
    destruct (gamepadPolling (self w)); exact H.
Qed.

Lemma valid_tick gamepads w :
  validFrom 0 (currentSequence (self w)) = true ->
  validFrom 0 (currentSequence (self (tick browser gamepads w))) = true.
Proof.
  unfold tick. generalize (intervals w) as hs. intros hs. revert w.
  induction hs as [|h hs IH]; intros w H; [exact H|].
  simpl. apply IH. destruct (existsb _ _); [|exact H].
  now apply valid_pollGamepad.
Qed.

Lemma valid_step s w :
  validFrom 0 (currentSequence (self w)) = true ->
  validFrom 0 (currentSequence (self (step browser w s))) = true.
Proof.
  intros H. destruct s; simpl.
  - now apply valid_handleKeyboardInput.
  - change (validFrom 0 (g_sequence (gate (onGamepadConnected index w))) = true).
    now rewrite gate_onGamepadConnected.
  - change (validFrom 0 (g_sequence (gate (onGamepadDisconnected index w))) = true).
    now rewrite gate_onGamepadDisconnected.
  - now apply valid_tick.
  - unfold advance, runTimeouts. simpl.
    destruct (List.filter _ (timeouts w)); exact H.
Qed.

Lemma sequence_newKonamiCode connected :
  currentSequence (self (newKonamiCode browser connected)) = [].
Proof.
  unfold newKonamiCode, init, setupGamepadListener, checkExistingGamepads.
  rewrite scanGamepads_spec.
  destruct (list_find is_Some connected) as [[n ?]|].
  - unfold startGamepadPolling. simpl.
    destruct (gamepadPolling _); unfold preloadAudio;
      destruct (audioCtor browser); reflexivity.
  - unfold preloadAudio. destruct (audioCtor browser); reflexivity.
Qed.

End EnteredSequence.

Lemma validFrom_lookup l : forall n i s,
  validFrom n l = true -> l !! i = Some s -> symbolOk (n + i) s = true.
Proof.
  induction l as [|x l IH]; intros n i s H Hl; [discriminate|].
  simpl in H. apply andb_prop in H as [Hx Hrest].
  destruct i as [|i]; simpl in Hl.
  - inversion Hl; subst. now rewrite Nat.add_0_r.
  - replace (n + S i) with (S n + i) by lia. eauto.
Qed.

Lemma strict_eq_true k e : Js.strict_eq k e = true -> e = Some k.
Proof.
  destruct e as [s|]; simpl; [|discriminate].
  intros H. apply String.eqb_eq in H. now subst.
Qed.

(** X2. Whatever happened on the page, the entered sequence is a prefix of
    the pattern position by position: its entry at position [i] is the
    arrow code, the WASD code or the button name of the pattern's position
    [i]. *)
Theorem entered_sequence_is_pattern_prefix
    (browser : Browser) (connected : list (option Gamepad)) (l : list Stimulus)
    (i : nat) (s : string) :
  currentSequence (self (run browser (newKonamiCode browser connected) l)) !! i = Some s ->
  sequence !! i = Some s \/ wasdSequence !! i = Some s \/ controllerSequence !! i = Some s.
Proof.
  assert (V : validFrom 0 (currentSequence
                (self (run browser (newKonamiCode browser connected) l))) = true).
  { assert (V0 : validFrom 0 (currentSequence (self (newKonamiCode browser connected))) = true)
      by now rewrite sequence_newKonamiCode.
    revert V0. generalize (newKonamiCode browser connected) as w. revert l.
    induction l as [|x l IH]; intros w H; [exact H|].
    apply IH. now apply valid_step. }
  intros Hl. pose proof (validFrom_lookup _ 0 i s V Hl) as H.
  unfold symbolOk, keyMatches, buttonMatches in H. simpl in H.
  apply orb_prop in H as [H|H]; [apply orb_prop in H as [H|H]|];
    apply strict_eq_true in H; auto.
Qed.

Lemma entered_sequence_is_pattern_prefix_witness :
  sequence !! 1%nat = Some "up" \/ wasdSequence !! 1%nat = Some "up" \/
  controllerSequence !! 1%nat = Some "up".
Proof.
  apply (entered_sequence_is_pattern_prefix workingBrowser []
           [KeyDown "KeyW"; GamepadConnected 0; PollTick [Some (padWith [12])]] 1 "up").
  vm_compute. reflexivity.
Defined.

Section ExtraUp.

Variable browser : Browser.

Lemma resetSequence_twice w : resetSequence (resetSequence w) = resetSequence w.
Proof. reflexivity. Qed.

(** A press of the pattern's first symbol, at prefix length 0, 1 or 2. *)
Lemma consume_up r w :
  hasPlayedThisSession (self w) = false ->
  prefixLength w <= 2 ->
  hasPlayedThisSession (self (consume browser w (symbolAt 0 r))) = false /\
  matches (consume browser w (symbolAt 0 r)) = matches w /\
  prefixLength (consume browser w (symbolAt 0 r)) =
    match prefixLength w with 0 => 1 | 1 => 2 | _ => 1 end.
Proof.
  intros Hf Hle.
  destruct (prefixLength w) as [|[|[|n]]] eqn:Hp; [ | | | lia].
  - rewrite (symbolAt_hits browser 0 r w) by (auto; lia). simpl.
    rewrite prefixLength_push, Hp. auto.
  - change (symbolAt 0 r) with (symbolAt 1 r).
    rewrite (symbolAt_hits browser 1 r w) by (auto; lia). simpl.
    rewrite prefixLength_push, Hp. auto.
  - destruct r; simpl.
    + rewrite handleKeyboardInput_mismatch by (rewrite ?Hp; auto). simpl. auto.
    + rewrite handleKeyboardInput_mismatch by (rewrite ?Hp; auto). simpl. auto.
    + rewrite handleControllerInput_mismatch by (rewrite ?Hp; auto). simpl. auto.
Qed.

(** After [k] of them from nothing: 0, 1, 2, 1, 2, ... *)
Lemma feed_ups ups w :
  hasPlayedThisSession (self w) = false ->
  currentSequence (self w) = [] ->
  hasPlayedThisSession (self (feed browser w (upPresses ups))) = false /\
  matches (feed browser w (upPresses ups)) = matches w /\
  prefixLength (feed browser w (upPresses ups)) =
    match length ups with
    | 0 => 0
    | S _ => if Nat.even (length ups) then 2 else 1
    end.
Proof.
  intros Hf He. induction ups as [|r ups IH] using rev_ind.
  - simpl. unfold prefixLength. rewrite He. auto.
  - destruct IH as [Hf' [Hm' Hp']].
    unfold upPresses, feed in *. rewrite map_app, fold_left_app. simpl.
    set (w' := fold_left (consume browser) (map (symbolAt 0) ups) w) in *.
    assert (Hle : prefixLength w' <= 2).
    { rewrite Hp'. destruct (length ups); [lia|]. destruct (Nat.even _); lia. }
    destruct (consume_up r w' Hf' Hle) as [Hf2 [Hm2 Hp2]].
    rewrite Hf2, Hm2, Hm', Hp2, Hp', length_app. simpl.
    replace (length ups + 1) with (S (length ups)) by lia.
    rewrite Nat.even_succ, <- Nat.negb_even.
    repeat split.
    destruct (length ups) as [|n]; [reflexivity|].
    destruct (Nat.even (S n)); reflexivity.
Qed.

(** A later symbol of the pattern, pressed at prefix length 0 or 1, is
    neither the expected symbol nor the first one. *)
Lemma consume_late_symbol n r w :
  hasPlayedThisSession (self w) = false ->
  prefixLength w <= 1 ->
  2 <= n < 10 ->
  consume browser w (symbolAt n r) = resetSequence w.
Proof.
  intros Hf Hle Hn.
  assert (Hp : prefixLength w = 0 \/ prefixLength w = 1) by lia.
  destruct n as [|[|n]]; [lia | lia |].
  do 8 (destruct n as [|n];
        [ destruct r; simpl;
          [ rewrite handleKeyboardInput_mismatch by (first [exact Hf | destruct Hp as [E|E]; rewrite E; reflexivity])
          | rewrite handleKeyboardInput_mismatch by (first [exact Hf | destruct Hp as [E|E]; rewrite E; reflexivity])
          | rewrite handleControllerInput_mismatch by (first [exact Hf | destruct Hp as [E|E]; rewrite E; reflexivity]) ];
          reflexivity | ]).
  lia.
Qed.

Lemma feed_late_symbols rest : forall n w,
  hasPlayedThisSession (self w) = false ->
  prefixLength w <= 1 ->
  2 <= n ->
  n + length rest <= 10 ->
  matches (feed browser w (patternInputs n rest)) = matches w.
Proof.
  induction rest as [|r rest IH]; intros n w Hf Hle Hn Hlen; [reflexivity|].
  simpl in *. unfold feed in *. simpl.
  rewrite consume_late_symbol by (auto; lia).
  rewrite (IH (S n)); auto; simpl; lia.
Qed.

End ExtraUp.

(** X3. From an empty sequence with the flag clear, the first symbol
    pressed [k] times and then the pattern's other eight symbols complete
    the sequence only when [k] is even and not 0: with one press too many,
    or any odd number, the input ends with the whole pattern and yet nothing
    is matched. *)
Theorem extra_first_symbol_breaks_the_pattern
    (browser : Browser) (w : World) (ups rest : list Row) :
  hasPlayedThisSession (self w) = false ->
  currentSequence (self w) = [] ->
  length rest = 8 ->
  matches (feed browser w (upPresses ups ++ patternInputs 2 rest)%list) =
  matches w + (if (2 <=? length ups)%nat && Nat.even (length ups) then 1 else 0).
Proof.
  intros Hf He Hlen.
  destruct (feed_ups browser ups w Hf He) as [Hf' [Hm' Hp']].
  unfold feed in *. rewrite fold_left_app.
  set (w' := fold_left (consume browser) (upPresses ups) w) in *.
  fold (feed browser w' (patternInputs 2 rest)).
  destruct (length ups) as [|k] eqn:Hk.
  - simpl. rewrite feed_late_symbols; auto; lia.
  - destruct (Nat.even (S k)) eqn:Hev.
    + assert (H2 : (2 <=? S k)%nat = true).
      { destruct k; [discriminate | reflexivity]. }
      rewrite H2. simpl andb.
      rewrite feed_pattern_complete;
        [| exact Hf' | exact Hp' | destruct rest; [discriminate|easy] | lia ].
      change (matches (playKonamiAudio browser
        (upd (set_currentSequence (currentSequence (self w') ++
           map pushed (patternInputs 2 rest))) w')) = matches w + 1).
      rewrite matches_playKonamiAudio, matches_upd. lia.
    + rewrite andb_false_r. rewrite feed_late_symbols; auto; lia.
Qed.

Lemma extra_first_symbol_breaks_the_pattern_witness :
  matches (feed workingBrowser freshPage
             (upPresses [Arrows; Arrows; Arrows]
              ++ patternInputs 2
                   [Arrows; Arrows; Arrows; Arrows; Arrows; Arrows; Arrows; Arrows])%list)
  = 0 /\
  matches (feed workingBrowser freshPage
             (upPresses [Arrows; Pad; Wasd; Arrows]
              ++ patternInputs 2
                   [Arrows; Pad; Arrows; Wasd; Arrows; Arrows; Pad; Arrows])%list)
  = 1.
Proof.
  split.
  - exact (extra_first_symbol_breaks_the_pattern workingBrowser freshPage
             [Arrows; Arrows; Arrows]
             [Arrows; Arrows; Arrows; Arrows; Arrows; Arrows; Arrows; Arrows]
             eq_refl eq_refl eq_refl).
  - exact (extra_first_symbol_breaks_the_pattern workingBrowser freshPage
             [Arrows; Pad; Wasd; Arrows]
             [Arrows; Pad; Arrows; Wasd; Arrows; Arrows; Pad; Arrows]
             eq_refl eq_refl eq_refl).
Defined.

(** ** More on the poller *)

(** X4. While the tracked gamepad is there at every tick, the press events
    of a tracked button are exactly the steps from not pressed to pressed in
    the levels that the ticks sample, counted from the recorded level: a
    button that is released and pressed again between two ticks is counted
    once, not twice. *)
Theorem presses_are_the_rising_edges
    (browser : Browser) (b : string) (i : nat) (h : positive)
    (ticks : list (list (option Gamepad))) (w : World) :
  In (b, i) trackedButtons ->
  gamepadIndex (self w) <> (-1)%Z ->
  intervals w = [h] ->
  Forall (fun gamepads => is_Some (mjoin (Js.index gamepads (gamepadIndex (self w))))) ticks ->
  presses b (run browser w (map PollTick ticks)) =
  presses b w +
  risingEdges (Js.truthy (Js.prop (previousButtonStates (self w)) b))
    (map (fun gamepads => Js.truthy (sampled (gamepadIndex (self w)) i gamepads)) ticks).
Proof.
  intros Hin. revert w. induction ticks as [|gamepads ticks IH]; intros w Hi Hv Hall.
  - simpl. lia.
  - inversion Hall as [|? ? [pad Hpad] Hrest]; subst.
    change (run browser w (map PollTick (gamepads :: ticks)))
      with (run browser (tick browser gamepads w) (map PollTick ticks)).
    rewrite (tick_one_interval browser gamepads h w Hv).
    pose proof (pollGamepad_present_poller browser gamepads pad w Hi Hpad) as P.
    pose proof (previous_pollGamepad_present browser b i gamepads pad w Hin Hi Hpad) as Hprev.
    pose proof (presses_pollGamepad_present browser b i gamepads pad w Hin Hi Hpad) as Hpress.
    set (w' := pollGamepad browser gamepads w) in *.
    assert (Hi' : gamepadIndex (self w') = gamepadIndex (self w))
      by exact (f_equal p_index P).
    assert (Hv' : intervals w' = [h])
      by (rewrite <- Hv; exact (f_equal p_intervals P)).
    rewrite IH; [| now rewrite Hi' | exact Hv' | now rewrite Hi' ].
    assert (Hs : sampled (gamepadIndex (self w)) i gamepads = pressed pad i)
      by (unfold sampled; now rewrite Hpad).
    assert (Hq : Js.prop (previousButtonStates (self w')) b = pressed pad i)
      by (unfold Js.prop; now rewrite Hprev).
    rewrite Hpress, Hi', Hq. simpl. rewrite Hs. unfold risingEdge. lia.
Qed.

Lemma presses_are_the_rising_edges_witness :
  presses "a"
    (run workingBrowser (run workingBrowser freshPage [GamepadConnected 0])
       (map PollTick [[Some (padWith [0])]; [Some (padWith [0; 1])]; [Some (padWith [])];
                      [Some (padWith [0])]; [Some (padWith [0])]])) = 2.
Proof.
  refine (presses_are_the_rising_edges workingBrowser "a" 0 1%positive
            [[Some (padWith [0])]; [Some (padWith [0; 1])]; [Some (padWith [])];
             [Some (padWith [0])]; [Some (padWith [0])]]
            (run workingBrowser freshPage [GamepadConnected 0])
            ltac:(simpl; auto 10) ltac:(vm_compute; discriminate) eq_refl _).
  repeat match goal with |- Forall _ _ => constructor end;
    vm_compute; eexists; reflexivity.
Defined.

Section Reconnect.

Variable browser : Browser.

Lemma presses_emit_log b msg i w : presses b (emit (ConsoleLog msg i) w) = presses b w.
Proof. reflexivity. Qed.

Lemma presses_startGamepadPolling b w : presses b (startGamepadPolling w) = presses b w.
Proof. unfold startGamepadPolling. destruct (gamepadPolling (self w)); reflexivity. Qed.

Lemma presses_onGamepadConnected b i w : presses b (onGamepadConnected i w) = presses b w.
Proof. unfold onGamepadConnected. now rewrite presses_startGamepadPolling. Qed.

Lemma presses_onGamepadDisconnected b i w :
  presses b (onGamepadDisconnected i w) = presses b w.
Proof.
  unfold onGamepadDisconnected. destruct (gamepadIndex _ =? i)%Z; reflexivity.
Qed.

(** Ticks without a tracked gamepad change nothing. *)
Lemma run_ticks_untracked h ticks : forall w,
  gamepadIndex (self w) = (-1)%Z ->
  intervals w = [h] ->
  run browser w (map PollTick ticks) = w.
Proof.
  induction ticks as [|g ticks IH]; intros w Hi Hv; [reflexivity|].
  simpl. rewrite (tick_one_interval browser g h w Hv).
  unfold pollGamepad. rewrite Hi. simpl. now apply IH.
Qed.

End Reconnect.

(** X5. The recorded levels are never cleared. After the disconnect event
    of the tracked gamepad, any number of ticks and a connect event, the
    poll loop is the one that ran before (same handle, no second interval)
    and the levels are those recorded before the disconnection; so a button
    recorded as pressed that is still down when polling resumes gets no
    press event. *)
Theorem reconnect_keeps_recorded_levels
    (browser : Browser) (w : World) (h : positive) (index : Z)
    (idle held : list (list (option Gamepad))) (b : string) (i : nat) :
  gamepadPolling (self w) = Some h ->
  intervals w = [h] ->
  In (b, i) trackedButtons ->
  index <> (-1)%Z ->
  Js.truthy (Js.prop (previousButtonStates (self w)) b) = true ->
  Forall (fun gamepads => buttonDown gamepads index i) held ->
  poller (run browser w
            (GamepadDisconnected (gamepadIndex (self w)) :: map PollTick idle
             ++ [GamepadConnected index])%list) =
  {| p_index := index; p_previous := previousButtonStates (self w);
     p_handle := Some h; p_intervals := [h]; p_next := nextHandle w |} /\
  presses b (run browser w
               (GamepadDisconnected (gamepadIndex (self w)) :: map PollTick idle
                ++ [GamepadConnected index] ++ map PollTick held)%list) = presses b w.
Proof.
  intros Hh Hv Hin Hidx Hprev Hheld.
  assert (R : forall w0 l1 l2,
            run browser w0 (l1 ++ l2) = run browser (run browser w0 l1) l2).
  { intros. apply fold_left_app. }
  change (GamepadDisconnected (gamepadIndex (self w)) :: map PollTick idle
          ++ [GamepadConnected index])%list
    with ([GamepadDisconnected (gamepadIndex (self w))] ++ map PollTick idle
          ++ [GamepadConnected index])%list.
  change (GamepadDisconnected (gamepadIndex (self w)) :: map PollTick idle
          ++ [GamepadConnected index] ++ map PollTick held)%list
    with ([GamepadDisconnected (gamepadIndex (self w))] ++ map PollTick idle
          ++ [GamepadConnected index] ++ map PollTick held)%list.
  rewrite !R.
  set (w1 := run browser w [GamepadDisconnected (gamepadIndex (self w))]).
  assert (E1 : w1 = upd (set_gamepadIndex (-1))
                      (emit (ConsoleLog "Xbox controller disconnected:"
                               (gamepadIndex (self w))) w)).
  { unfold w1. simpl. unfold onGamepadDisconnected. simpl. now rewrite Z.eqb_refl. }
  assert (E2 : run browser w1 (map PollTick idle) = w1).
  { apply (run_ticks_untracked browser h); rewrite E1; [reflexivity | exact Hv]. }
  rewrite E2.
  set (w2 := run browser w1 [GamepadConnected index]).
  assert (P2 : poller w2 =
               {| p_index := index; p_previous := previousButtonStates (self w);
                  p_handle := Some h; p_intervals := [h]; p_next := nextHandle w |}).
  { unfold w2. rewrite E1. simpl. unfold onGamepadConnected, startGamepadPolling. simpl.
    rewrite Hh. unfold poller. simpl. now rewrite Hh, Hv. }
  split; [exact P2|].
  assert (Hi2 : gamepadIndex (self w2) = index) by exact (f_equal p_index P2).
  assert (Hv2 : intervals w2 = [h]) by exact (f_equal p_intervals P2).
  assert (Hp2 : previousButtonStates (self w2) = previousButtonStates (self w))
    by exact (f_equal p_previous P2).
  rewrite (presses_held browser b i h Hin held w2);
    [| now rewrite Hi2 | exact Hv2 | now rewrite Hi2 ].
  rewrite Hp2, Hprev.
  assert (Hpr : presses b w2 = presses b w).
  { unfold w2. simpl. rewrite presses_onGamepadConnected. now rewrite E1. }
  rewrite Hpr. destruct held; lia.
Qed.

Lemma reconnect_keeps_recorded_levels_witness :
  presses "up"
    (run workingBrowser
       (run workingBrowser freshPage [GamepadConnected 0; PollTick [Some (padWith [12])]])
       (GamepadDisconnected 0 :: map PollTick [[None]; []]
        ++ [GamepadConnected 1]
        ++ map PollTick [[None; Some (padWith [12])]; [None; Some (padWith [12])]])%list)
  = 1.
Proof.
  refine (proj2 (reconnect_keeps_recorded_levels workingBrowser
                   (run workingBrowser freshPage
                      [GamepadConnected 0; PollTick [Some (padWith [12])]])
                   1%positive 1%Z [[None]; []]
                   [[None; Some (padWith [12])]; [None; Some (padWith [12])]] "up" 12
                   eq_refl eq_refl ltac:(simpl; auto 10) ltac:(discriminate)
                   ltac:(vm_compute; reflexivity) _)).
  repeat match goal with |- Forall _ _ => constructor end;
    unfold buttonDown; eexists; split; vm_compute; reflexivity.
Defined.

(** ** How many detectors there are *)

Section BootstrapFacts.

Variable browser : Browser.

Lemma length_toAll s p : length (detectors (toAll browser s p)) = length (detectors p).
Proof. unfold toAll; simpl. apply length_map. Qed.

Lemma detectors_runPage l : forall p,
  match startTimer p with Some remaining => (0 < remaining)%N | None => True end ->
  length (detectors (runPage browser p l)) =
  length (detectors p) + dispatches l +
  match startTimer p with
  | Some remaining => if (remaining <=? passed l)%N then 1 else 0
  | None => 0
  end.
Proof.
  induction l as [|e l IH]; intros p Hpos.
  - unfold dispatches; simpl. destruct (startTimer p) as [r|]; [|lia].
    destruct (N.leb_spec r 0); lia.
  - change (runPage browser p (e :: l)) with (runPage browser (pageStep browser p e) l).
    destruct e as [g | ms g | code | index | index | g].
    3-6: rewrite IH by exact Hpos; simpl pageStep; rewrite length_toAll;
         unfold dispatches; simpl; reflexivity.
    + rewrite IH by exact Hpos. unfold dispatches; simpl.
      rewrite length_app; simpl. lia.
    + unfold pageStep. cbv zeta. simpl startTimer.
      destruct (startTimer p) as [r|] eqn:Hr.
      * destruct (N.leb_spec r ms) as [Hle|Hlt].
        -- rewrite IH by exact I. unfold dispatches; simpl.
           rewrite length_app, length_map; simpl.
           destruct (N.leb_spec r (ms + passed l)); lia.
        -- rewrite IH by (simpl; lia). unfold dispatches; simpl.
           rewrite length_map.
           destruct (N.leb_spec (r - ms) (passed l));
             destruct (N.leb_spec r (ms + passed l)); lia.
      * rewrite IH by (simpl; now rewrite Hr). simpl. rewrite Hr, length_map.
        unfold dispatches; simpl. lia.
Qed.

(** A new detector in a browser where [new Audio()] works. *)
Lemma unused_newKonamiCode gamepads :
  audioCtor browser = true -> unused (newKonamiCode browser gamepads).
Proof.
  intros Hc. unfold unused, newKonamiCode, init, setupGamepadListener, checkExistingGamepads.
  rewrite scanGamepads_spec. unfold preloadAudio. rewrite Hc.
  destruct (list_find is_Some gamepads) as [[n ?]|]; simpl; auto 10.
Qed.

Lemma unused_advance ms w : unused w -> unused (advance ms w).
Proof.
  intros (Hf & He & Ht & Hp & Ha). unfold unused, advance, runTimeouts. simpl.
  rewrite Ht. simpl. auto 10.
Qed.

Lemma unused_runPage l : forall p,
  audioCtor browser = true ->
  Forall quiet l ->
  Forall unused (detectors p) ->
  Forall unused (detectors (runPage browser p l)).
Proof.
  induction l as [|e l IH]; intros p Hc Hq Hu; [exact Hu|].
  inversion Hq as [|? ? He Hl]; subst.
  change (runPage browser p (e :: l)) with (runPage browser (pageStep browser p e) l).
  apply IH; [exact Hc | exact Hl |].
  assert (Hadv : forall ms, Forall unused (map (fun w => step browser w (Elapse ms)) (detectors p))).
  { intros ms. clear -Hu.
    induction Hu as [|w ws Hw _ IHu]; simpl; constructor;
      [now apply unused_advance | exact IHu]. }
  destruct e as [g | ms g | code | index | index | g]; try contradiction.
  - simpl. apply Forall_app. split; [exact Hu|].
    constructor; [now apply unused_newKonamiCode | constructor].
  - unfold pageStep. cbv zeta. simpl startTimer. simpl detectors.
    destruct (startTimer p) as [r|].
    + destruct (r <=? ms)%N; simpl.
      * apply Forall_app. split; [apply Hadv|].
        constructor; [now apply unused_newKonamiCode | constructor].
      * apply Hadv.
    + simpl. apply Hadv.
Qed.

(** Key presses reach every detector, each on its own. *)
Lemma runPage_keys keys : forall p,
  runPage browser p (map KeyPressed keys) =
  {| detectors := map (fun w => run browser w (map KeyDown keys)) (detectors p);
     startTimer := startTimer p |}.
Proof.
  induction keys as [|k keys IH]; intros p.
  - simpl. rewrite map_id. now destruct p.
  - change (runPage browser p (map KeyPressed (k :: keys)))
      with (runPage browser (toAll browser (KeyDown k) p) (map KeyPressed keys)).
    rewrite IH. unfold toAll; simpl. now rewrite map_map.
Qed.

Lemma detectors_loadScript readyState l :
  length (detectors (runPage browser (loadScript readyState) l)) = created readyState l.
Proof.
  rewrite detectors_runPage by (destruct readyState; simpl; lia).
  unfold created. destruct readyState; simpl; lia.
Qed.

End BootstrapFacts.

(** X6. The script creates one detector for each dispatch of
    [DOMContentLoaded] and, unless it ran while the document was loading,
    one more as soon as 100 ms have passed; nothing else creates or removes
    a detector. A script that runs while the document is loading thus gets
    one detector, a script that runs between the end of parsing and
    [DOMContentLoaded] gets two. *)
Theorem detectors_on_the_page
    (browser : Browser) (readyState : ReadyState) (l : list PageEvent) :
  length (detectors (runPage browser (loadScript readyState) l)) = created readyState l.
Proof. apply detectors_loadScript. Qed.

(** X7. Where audio works, the pattern typed on a page that has not been
    used yet calls [play()] once for every detector there is: once when the
    script ran while the document was loading and [DOMContentLoaded] came,
    twice when the script ran after parsing, [DOMContentLoaded] came and
    100 ms passed. *)
Theorem pattern_plays_once_per_detector
    (browser : Browser) (readyState : ReadyState) (l : list PageEvent)
    (choice : list bool) :
  audioCtor browser = true ->
  (forall n, playOutcome browser n <> PlayThrows) ->
  Forall quiet l ->
  length choice = 10 ->
  totalPlays (runPage browser (loadScript readyState)
                (l ++ map KeyPressed (patternKeys 0 choice))%list) = created readyState l.
Proof.
  intros Hc Ho Hq Hlen.
  unfold runPage. rewrite fold_left_app.
  fold (runPage browser (loadScript readyState) l).
  fold (runPage browser (runPage browser (loadScript readyState) l)
          (map KeyPressed (patternKeys 0 choice))).
  rewrite runPage_keys. unfold totalPlays; simpl.
  rewrite <- (detectors_loadScript browser readyState l).
  pose proof (unused_runPage browser l (loadScript readyState) Hc Hq
                ltac:(destruct readyState; constructor)) as Hu.
  induction Hu as [|w ws (Hf & He & Ht & Hp & Ha) _ IHu]; [reflexivity|].
  simpl. rewrite IHu.
  pose proof (gate_full_pattern browser w _ choice Ho Ha Hf He Hlen) as G.
  apply (f_equal g_plays) in G. simpl in G. rewrite G, Hp. reflexivity.
Qed.

Lemma pattern_plays_once_per_detector_witness :
  totalPlays (runPage workingBrowser (loadScript Loading)
                ([DomContentLoaded []; Pass 5000 []]
                 ++ map KeyPressed (patternKeys 0 (repeat false 10)))%list) = 1 /\
  totalPlays (runPage workingBrowser (loadScript Interactive)
                ([DomContentLoaded []; Pass 100 []]
                 ++ map KeyPressed (patternKeys 0 (repeat false 10)))%list) = 2.
Proof.
  split.
  - exact (pattern_plays_once_per_detector workingBrowser Loading
             [DomContentLoaded []; Pass 5000 []] (repeat false 10)
             eq_refl ltac:(intros n; simpl; discriminate)
             ltac:(repeat constructor) eq_refl).
  - exact (pattern_plays_once_per_detector workingBrowser Interactive
             [DomContentLoaded []; Pass 100 []] (repeat false 10)
             eq_refl ltac:(intros n; simpl; discriminate)
             ltac:(repeat constructor) eq_refl).
Defined.

(** ** The theme switch *)

Section ThemeFacts.

Import Theme.

Lemma getCurrentTheme_truthy s : truthy (Some (getCurrentTheme s)) = true.
Proof.
  unfold getCurrentTheme.
  destruct (storage s !! "theme") as [t|].
  - destruct (truthy (Some t)) eqn:E; [exact E|]. now destruct (prefersDark s).
  - now destruct (prefersDark s).
Qed.

Lemma getCurrentTheme_saved s t :
  storage s !! "theme" = Some t -> truthy (Some t) = true -> getCurrentTheme s = t.
Proof. intros H Ht. unfold getCurrentTheme. now rewrite H, Ht. Qed.

Lemma theme_classes_add_remove (C : gset string) (a r : string) :
  a <> r -> (C ∪ {[a]}) ∖ {[r]} = (C ∖ {[r]}) ∪ {[a]}.
Proof.
  intros Hne. apply set_eq. intros x.
  rewrite !elem_of_union, !elem_of_difference, !elem_of_union, !elem_of_singleton.
  split; [intros [[H|H] Hr]; auto | intros [[H Hr]|H]; auto].
  split; [auto | congruence].
Qed.

Lemma theme_classes_over (C : gset string) (a r a' r' : string) :
  a <> r -> (a' = a /\ r' = r \/ a' = r /\ r' = a) ->
  ((C ∖ {[r']}) ∪ {[a']}) ∖ {[r]} ∪ {[a]} = (C ∖ {[r]}) ∪ {[a]}.
Proof.
  intros Hne Hc. apply set_eq. intros x.
  rewrite !elem_of_union, !elem_of_difference, !elem_of_union, !elem_of_difference,
    !elem_of_singleton.
  destruct (decide (x = a)) as [->|Ha]; [tauto|].
  destruct (decide (x = r)) as [->|Hr]; [tauto|].
  destruct Hc as [[-> ->]|[-> ->]]; tauto.
Qed.

Lemma classes_setTheme theme s :
  bodyClasses (setTheme theme s) = showing (String.eqb theme "dark") (bodyClasses s).
Proof.
  unfold setTheme, showing; simpl.
  destruct (String.eqb theme "dark"); now apply theme_classes_add_remove.
Qed.

Lemma showing_showing b b' C : showing b (showing b' C) = showing b C.
Proof.
  unfold showing. destruct b, b'; apply theme_classes_over; try discriminate; auto.
Qed.

Lemma themeName_dark b : String.eqb (themeName b) "dark" = b.
Proof. now destruct b. Qed.

Lemma clicks_cons_click l : clicks (Click :: l) = S (clicks l).
Proof. reflexivity. Qed.

(** With both listeners registered and a theme saved, only the clicks
    count. *)
Lemma run_registered l : forall s t C,
  clickListener s = true ->
  changeListener s = true ->
  storage s !! "theme" = Some t ->
  truthy (Some t) = true ->
  bodyClasses s = showing (String.eqb t "dark") C ->
  bodyClasses (run s l) = showing (darkAfter (String.eqb t "dark") l) C /\
  storage (run s l) !! "theme" =
    Some (if Nat.eqb (clicks l) 0 then t
          else themeName (darkAfter (String.eqb t "dark") l)) /\
  (forall k, k <> "theme" -> storage (run s l) !! k = storage s !! k).
Proof.
  induction l as [|e l IH]; intros s t C Hc Hs Ht Htr Hb.
  - unfold darkAfter; simpl. rewrite xorb_false_r. auto.
  - change (run s (e :: l)) with (run (step s e) l).
    destruct e as [|m].
    + set (t' := if String.eqb t "dark" then "light" else "dark").
      assert (E : step s Click = setTheme t' s).
      { simpl. rewrite Hc. unfold onClick.
        now rewrite (getCurrentTheme_saved s t Ht Htr). }
      rewrite E.
      assert (Hd : String.eqb t' "dark" = negb (String.eqb t "dark"))
        by (unfold t'; now destruct (String.eqb t "dark")).
      assert (Htr' : truthy (Some t') = true)
        by (unfold t'; now destruct (String.eqb t "dark")).
      destruct (IH (setTheme t' s) t' C) as (H1 & H2 & H3); auto.
      * simpl. apply lookup_insert_eq.
      * rewrite classes_setTheme, Hb, showing_showing. reflexivity.
      * assert (Hda : darkAfter (String.eqb t' "dark") l =
                      darkAfter (String.eqb t "dark") (Click :: l)).
        { unfold darkAfter. rewrite clicks_cons_click, Nat.odd_succ, <- Nat.negb_odd, Hd.
          destruct (String.eqb t "dark"), (Nat.odd (clicks l)); reflexivity. }
        rewrite H1, H2, Hda, clicks_cons_click. repeat split.
        -- simpl Nat.eqb. destruct (Nat.eqb_spec (clicks l) 0) as [E0|E0]; [|reflexivity].
           f_equal. rewrite <- Hda. unfold darkAfter. rewrite E0. simpl.
           rewrite xorb_false_r, Hd. unfold t'. now destruct (String.eqb t "dark").
        -- intros k Hk. rewrite H3 by exact Hk. simpl. now rewrite lookup_insert_ne.
    + set (s' := {| bodyClasses := bodyClasses s; storage := storage s; prefersDark := m;
                    clickListener := clickListener s;
                    changeListener := changeListener s |}).
      assert (E : step s (SystemChange m) = s').
      { unfold step. cbv zeta. simpl changeListener. rewrite Hs.
        unfold onChange. simpl storage. rewrite Ht, Htr. simpl.
        unfold s'. now rewrite Hs. }
      rewrite E. apply (IH s' t C); auto.
Qed.

(** Without listeners nothing ever changes but the system's preference. *)
Lemma run_unregistered l : forall s,
  clickListener s = false ->
  changeListener s = false ->
  bodyClasses (run s l) = bodyClasses s /\ storage (run s l) = storage s.
Proof.
  induction l as [|e l IH]; intros s Hc Hs; [auto|].
  change (run s (e :: l)) with (run (step s e) l).
  destruct e as [|m].
  - simpl step. rewrite Hc. now apply IH.
  - set (s' := {| bodyClasses := bodyClasses s; storage := storage s; prefersDark := m;
                  clickListener := clickListener s;
                  changeListener := changeListener s |}).
    assert (E : step s (SystemChange m) = s')
      by (unfold step; cbv zeta; simpl changeListener; rewrite Hs; unfold s';
          now rewrite Hs).
    rewrite E. apply (IH s'); auto.
Qed.

End ThemeFacts.

(** X8. Once the handler has run on a page with the toggle button, the
    theme that shows depends on the clicks alone: it is the theme found at
    start-up (the saved one, else the system's) flipped once per click, the
    body carries that theme's class and not the other, the saved theme is
    the one that shows after the first click, and no other stored key is
    touched. Changes of the system's preference never change anything,
    because a theme is always saved by then. *)
Theorem theme_follows_the_clicks_only (s : Theme.State) (l : list Theme.Event) :
  Theme.bodyClasses (Theme.run (Theme.setup true s) l) =
    Theme.showing
      (Theme.darkAfter (String.eqb (Theme.getCurrentTheme s) "dark") l)
      (Theme.bodyClasses s) /\
  Theme.storage (Theme.run (Theme.setup true s) l) !! "theme" =
    Some (if Nat.eqb (Theme.clicks l) 0 then Theme.getCurrentTheme s
          else Theme.themeName
                 (Theme.darkAfter (String.eqb (Theme.getCurrentTheme s) "dark") l)) /\
  (forall k, k <> "theme" ->
     Theme.storage (Theme.run (Theme.setup true s) l) !! k = Theme.storage s !! k).
Proof.
  destruct (run_registered l (Theme.setup true s) (Theme.getCurrentTheme s)
              (Theme.bodyClasses s)) as (H1 & H2 & H3); try reflexivity.
  - simpl. apply lookup_insert_eq.
  - apply getCurrentTheme_truthy.
  - simpl. apply (classes_setTheme (Theme.getCurrentTheme s) s).
  - repeat split; auto.
    intros k Hk. rewrite H3 by exact Hk. simpl. now rewrite lookup_insert_ne.
Qed.

(** X9. On a page without the toggle button the handler applies and saves
    the start-up theme and then throws before it registers the listener of
    the system's preference: whatever happens afterwards, classes and
    storage stay as the handler left them. *)
Theorem theme_is_frozen_without_button (s : Theme.State) (l : list Theme.Event) :
  Theme.clickListener s = false ->
  Theme.changeListener s = false ->
  Theme.bodyClasses (Theme.run (Theme.setup false s) l) =
    Theme.showing (String.eqb (Theme.getCurrentTheme s) "dark") (Theme.bodyClasses s) /\
  Theme.storage (Theme.run (Theme.setup false s) l) =
    <["theme" := Theme.getCurrentTheme s]> (Theme.storage s).
Proof.
  intros Hc Hs.
  destruct (run_unregistered l (Theme.setup false s)) as (H1 & H2); [exact Hc | exact Hs |].
  rewrite H1, H2. split; [|reflexivity].
  apply (classes_setTheme (Theme.getCurrentTheme s) s).
Qed.

Lemma theme_is_frozen_without_button_witness :
  Theme.storage
    (Theme.run
       (Theme.setup false
          {| Theme.bodyClasses := ∅; Theme.storage := ∅; Theme.prefersDark := true;
             Theme.clickListener := false; Theme.changeListener := false |})
       [Theme.SystemChange false; Theme.Click]) =
  <["theme" := "dark"]> ∅.
Proof.
  exact (proj2 (theme_is_frozen_without_button
                  {| Theme.bodyClasses := ∅; Theme.storage := ∅; Theme.prefersDark := true;
                     Theme.clickListener := false; Theme.changeListener := false |}
                  [Theme.SystemChange false; Theme.Click] eq_refl eq_refl)).
Defined.

(** ** The mobile header *)

Section NavFacts.

Import Nav.

Lemma member_toggle (x c : string) (C : gset string) :
  bool_decide (x ∈ toggle c C) =
  if String.eqb x c then negb (bool_decide (c ∈ C)) else bool_decide (x ∈ C).
Proof.
  unfold toggle. destruct (String.eqb_spec x c) as [->|Hne].
  - destruct (bool_decide (c ∈ C)) eqn:E; simpl.
    + apply bool_decide_eq_false. rewrite elem_of_difference, elem_of_singleton. tauto.
    + apply bool_decide_eq_true. rewrite elem_of_union, elem_of_singleton. tauto.
  - destruct (bool_decide (c ∈ C)) eqn:E; apply bool_decide_ext.
    + rewrite elem_of_difference, elem_of_singleton. tauto.
    + rewrite elem_of_union, elem_of_singleton. tauto.
Qed.

(** One call of [headerToggle] on a page with [#header]. *)
Lemma headerToggle_flips s h :
  header s = Some h ->
  menuOpen (headerToggle s) = negb (menuOpen s) /\
  bool_decide ("bi-x" ∈ toggleBtn (headerToggle s)) = negb (bool_decide ("bi-x" ∈ toggleBtn s)) /\
  bool_decide ("bi-list" ∈ toggleBtn (headerToggle s)) =
    negb (bool_decide ("bi-list" ∈ toggleBtn s)) /\
  bool_decide ("header-show" ∈ toggleBtn (headerToggle s)) =
    bool_decide ("header-show" ∈ toggleBtn s) /\
  elsewhere (headerToggle s) = elsewhere s /\
  exists h', header (headerToggle s) = Some h' /\
             forall c, c <> "header-show" -> bool_decide (c ∈ h') = bool_decide (c ∈ h).
Proof.
  intros Hh. unfold headerToggle, menuOpen. rewrite Hh. simpl.
  rewrite !member_toggle. simpl. repeat split.
  eexists. split; [reflexivity|]. intros c Hc. rewrite member_toggle.
  destruct (String.eqb_spec c "header-show"); [contradiction | reflexivity].
Qed.

Lemma run_switch l : forall s h,
  header s = Some h ->
  elsewhere s = false ->
  bool_decide ("header-show" ∈ toggleBtn s) = false ->
  menuOpen (run s l) = openAfter (menuOpen s) l /\
  bool_decide ("bi-x" ∈ toggleBtn (run s l)) =
    xorb (bool_decide ("bi-x" ∈ toggleBtn s)) (xorb (menuOpen s) (openAfter (menuOpen s) l)) /\
  bool_decide ("bi-list" ∈ toggleBtn (run s l)) =
    xorb (bool_decide ("bi-list" ∈ toggleBtn s))
      (xorb (menuOpen s) (openAfter (menuOpen s) l)) /\
  exists h', header (run s l) = Some h' /\
             forall c, c <> "header-show" -> bool_decide (c ∈ h') = bool_decide (c ∈ h).
Proof.
  induction l as [|e l IH]; intros s h Hh He Hb.
  - simpl. rewrite !xorb_nilpotent, !xorb_false_r. repeat split. eauto.
  - change (run s (e :: l)) with (run (step s e) l).
    change (openAfter (menuOpen s) (e :: l))
      with (openAfter (match e with ButtonClick => negb (menuOpen s) | LinkClick => false end) l).
    destruct (headerToggle_flips s h Hh) as (T1 & T2 & T3 & T4 & T5 & h1 & T6 & T7).
    assert (Hshow : headerShow s = menuOpen s).
    { unfold headerShow, menuOpen. rewrite Hh, Hb, He. now rewrite !orb_false_r. }
    assert (Hstep : (step s e = headerToggle s /\
                     menuOpen (headerToggle s) =
                       match e with ButtonClick => negb (menuOpen s) | LinkClick => false end) \/
                    (step s e = s /\
                     menuOpen s =
                       match e with ButtonClick => negb (menuOpen s) | LinkClick => false end)).
    { destruct e; simpl.
      - left. auto.
      - unfold navLinkClick. rewrite Hshow. destruct (menuOpen s) eqn:Ho.
        + left. split; [reflexivity|]. now rewrite T1.
        + right. auto. }
    destruct Hstep as [[-> Hm] | [-> Hm]].
    + destruct (IH (headerToggle s) h1 T6) as (I1 & I2 & I3 & h2 & I4 & I5).
      * now rewrite T5.
      * now rewrite T4.
      * rewrite I1, I2, I3, T2, T3. rewrite <- Hm. rewrite T1.
        generalize (openAfter (negb (menuOpen s)) l). intros o.
        repeat split.
        -- destruct (bool_decide ("bi-x" ∈ toggleBtn s)), (menuOpen s), o; reflexivity.
        -- destruct (bool_decide ("bi-list" ∈ toggleBtn s)), (menuOpen s), o; reflexivity.
        -- exists h2. split; [exact I4|]. intros c Hc. now rewrite I5, T7.
    + destruct (IH s h Hh He Hb) as (I1 & I2 & I3 & h2 & I4 & I5).
      rewrite <- Hm. repeat split; auto. eauto.
Qed.

End NavFacts.

(** X10. On a page with [#header], where no other element carries
    [header-show], the menu is a switch: the button flips it and a click on
    a menu link leaves it closed, whatever the order of the clicks. The
    button's two icon classes are flipped exactly when the menu is, so an
    icon that matched the menu at first matches it for ever, and no other
    class of the header changes. *)
Theorem header_menu_is_a_switch (s : Nav.State) (h : gset string) (l : list Nav.Event) :
  Nav.header s = Some h ->
  Nav.elsewhere s = false ->
  "header-show" ∉ Nav.toggleBtn s ->
  Nav.menuOpen (Nav.run s l) = Nav.openAfter (Nav.menuOpen s) l /\
  bool_decide ("bi-x" ∈ Nav.toggleBtn (Nav.run s l)) =
    xorb (bool_decide ("bi-x" ∈ Nav.toggleBtn s))
      (xorb (Nav.menuOpen s) (Nav.openAfter (Nav.menuOpen s) l)) /\
  bool_decide ("bi-list" ∈ Nav.toggleBtn (Nav.run s l)) =
    xorb (bool_decide ("bi-list" ∈ Nav.toggleBtn s))
      (xorb (Nav.menuOpen s) (Nav.openAfter (Nav.menuOpen s) l)) /\
  exists h', Nav.header (Nav.run s l) = Some h' /\
             forall c, c <> "header-show" -> bool_decide (c ∈ h') = bool_decide (c ∈ h).
Proof.
  intros Hh He Hb. apply run_switch; auto. now apply bool_decide_eq_false.
Qed.

Lemma header_menu_is_a_switch_witness :
  Nav.menuOpen
    (Nav.run {| Nav.header := Some {["header"]}; Nav.toggleBtn := {["bi-list"]};
                Nav.elsewhere := false |}
       [Nav.ButtonClick; Nav.LinkClick; Nav.LinkClick; Nav.ButtonClick]) = true.
Proof.
  refine (proj1 (header_menu_is_a_switch
                   {| Nav.header := Some {["header"]}; Nav.toggleBtn := {["bi-list"]};
                      Nav.elsewhere := false |}
                   {["header"]}
                   [Nav.ButtonClick; Nav.LinkClick; Nav.LinkClick; Nav.ButtonClick]
                   eq_refl eq_refl _)).
  simpl. rewrite elem_of_singleton. discriminate.
Defined.

(** ** The contact form *)

Section FormFacts.

Import Form.

(** What holds between events while submissions do not overlap: at most
    one request is unanswered, both messages are hidden while one is, and
    the two messages are never shown together. *)
Lemma run_one_at_a_time l : forall l' s,
  successMessage s <> None ->
  errorMessage s <> None ->
  inFlight s <= 1 ->
  (inFlight s = 1 -> shown (successMessage s) = false /\ shown (errorMessage s) = false) ->
  shown (successMessage s) && shown (errorMessage s) = false ->
  oneAtATime (inFlight s) (l ++ l') = true ->
  successMessage (run s l) <> None /\
  errorMessage (run s l) <> None /\
  inFlight (run s l) <= 1 /\
  (inFlight (run s l) = 1 ->
   shown (successMessage (run s l)) = false /\ shown (errorMessage (run s l)) = false) /\
  shown (successMessage (run s l)) && shown (errorMessage (run s l)) = false /\
  oneAtATime (inFlight (run s l)) l' = true.
Proof.
  induction l as [|e l IH]; intros l' s Hs He Hn Hp Hb Ho.
  - simpl in *. auto 10.
  - change (run s (e :: l)) with (run (step s e) l).
    destruct (successMessage s) as [a|] eqn:Ea; [|contradiction].
    destruct (errorMessage s) as [b|] eqn:Eb; [|contradiction].
    destruct e as [ok|o]; simpl in Ho.
    + apply andb_prop in Ho as [Hz Ho]. apply Nat.eqb_eq in Hz.
      apply IH with (l' := l'); unfold step, onSubmit; rewrite Ea, Eb;
        destruct ok; simpl; rewrite ?Hz; auto; try discriminate; try lia.
    + destruct (inFlight s) as [|n] eqn:En.
      * apply IH with (l' := l'); unfold step; rewrite En, ?Ea, ?Eb, ?En; auto;
          try discriminate; try lia.
      * assert (n = 0) by lia. subst n.
        destruct (Hp eq_refl) as [Hsa Hsb]. simpl in Ho.
        apply IH with (l' := l'); unfold step, onSettled; rewrite En;
          destruct o; simpl; rewrite ?Ea, ?Eb; auto; try discriminate; try lia;
          rewrite ?Hsa, ?Hsb; auto.
Qed.

End FormFacts.

(** X11. On a page that has both message elements, as long as no
    submission is made while a request is unanswered, the success and the
    error message are never shown together and both are hidden while the
    request is under way; and after a submission and its answer exactly one
    of them shows, the success message if and only if the response was
    [ok], in which case alone the form is reset. *)
Theorem form_shows_one_message
    (s : Form.State) (l : list Form.Event) (o : Form.Outcome) :
  Form.successMessage s <> None ->
  Form.errorMessage s <> None ->
  Form.inFlight s = 0 ->
  Form.shown (Form.successMessage s) && Form.shown (Form.errorMessage s) = false ->
  Form.oneAtATime 0 (l ++ [Form.Submit true; Form.Settle o])%list = true ->
  Form.shown (Form.successMessage (Form.run s l))
    && Form.shown (Form.errorMessage (Form.run s l)) = false /\
  (Form.inFlight (Form.run s (l ++ [Form.Submit true])%list) = 1 /\
   Form.shown (Form.successMessage (Form.run s (l ++ [Form.Submit true])%list)) = false /\
   Form.shown (Form.errorMessage (Form.run s (l ++ [Form.Submit true])%list)) = false) /\
  (Form.shown (Form.successMessage
                 (Form.run s (l ++ [Form.Submit true; Form.Settle o])%list)) =
     match o with Form.ResponseOk => true | _ => false end /\
   Form.shown (Form.errorMessage
                 (Form.run s (l ++ [Form.Submit true; Form.Settle o])%list)) =
     match o with Form.ResponseOk => false | _ => true end /\
   Form.resets (Form.run s (l ++ [Form.Submit true; Form.Settle o])%list) =
     Form.resets (Form.run s l) + match o with Form.ResponseOk => 1 | _ => 0 end).
Proof.
  intros Hs He Hn Hb Ho.
  destruct (run_one_at_a_time l [Form.Submit true; Form.Settle o] s Hs He
              ltac:(lia) ltac:(intros H; rewrite Hn in H; discriminate H) Hb
              ltac:(rewrite Hn; exact Ho))
    as (Ps & Pe & Pn & Pp & Pb & Po).
  unfold Form.run in *. rewrite !fold_left_app.
  set (s1 := fold_left Form.step l s) in *.
  simpl in Po. apply andb_prop in Po as [Hz _]. apply Nat.eqb_eq in Hz.
  destruct (Form.successMessage s1) as [a|] eqn:Ea; [|contradiction].
  destruct (Form.errorMessage s1) as [b|] eqn:Eb; [|contradiction].
  split; [exact Pb|].
  simpl. unfold Form.onSubmit. rewrite Ea, Eb. simpl. rewrite Hz.
  split; [auto|].
  destruct o; simpl; repeat split; lia.
Qed.

Lemma form_shows_one_message_witness :
  Form.shown (Form.successMessage
     (Form.run {| Form.successMessage := Some ""; Form.errorMessage := Some "";
                  Form.resets := 0; Form.inFlight := 0 |}
        ([Form.Submit true; Form.Settle Form.Rejected]
         ++ [Form.Submit true; Form.Settle Form.ResponseOk])%list)) = true.
Proof.
  exact (proj1 (proj2 (proj2
    (form_shows_one_message
       {| Form.successMessage := Some ""; Form.errorMessage := Some "";
          Form.resets := 0; Form.inFlight := 0 |}
       [Form.Submit true; Form.Settle Form.Rejected] Form.ResponseOk
       ltac:(discriminate) ltac:(discriminate) eq_refl eq_refl eq_refl)))).
Defined.

(** ** The scrollspy *)

Section SpyFacts.

Variable Num : Type.
Variable plus : Num -> Num -> Num.
Variable geq : Num -> Num -> bool.
Variable leq : Num -> Num -> bool.
Variable twoHundred : Num.
Variable querySelector : string -> Spy.Lookup Num.
Variable scrollY : Num.

Local Abbreviation verdict := (Spy.verdict Num plus geq leq twoHundred querySelector scrollY).
Local Abbreviation visit := (Spy.visit Num plus geq leq twoHundred querySelector scrollY).
Local Abbreviation lastHit := (Spy.lastHit Num plus geq leq twoHundred querySelector scrollY).
Local Abbreviation expected := (Spy.expected Num plus geq leq twoHundred querySelector scrollY).
Local Abbreviation navmenuScrollspy :=
  (Spy.navmenuScrollspy Num plus geq leq twoHundred querySelector scrollY).

Lemma verdict_hash a b : Spy.hash a = Spy.hash b -> verdict a = verdict b.
Proof. intros H. unfold Spy.verdict. now rewrite H. Qed.

Lemma isActive_deactivate l : Spy.isActive (Spy.deactivate l) = false.
Proof.
  unfold Spy.isActive, Spy.deactivate; simpl. apply bool_decide_eq_false.
  rewrite elem_of_difference, elem_of_singleton. tauto.
Qed.

Lemma isActive_activate l : Spy.isActive (Spy.activate l) = true.
Proof.
  unfold Spy.isActive, Spy.activate; simpl. apply bool_decide_eq_true.
  rewrite elem_of_union, elem_of_singleton. tauto.
Qed.

Lemma others_deactivate c l :
  c <> "active" ->
  bool_decide (c ∈ Spy.classes (Spy.deactivate l)) = bool_decide (c ∈ Spy.classes l).
Proof.
  intros Hc. apply bool_decide_ext. simpl.
  rewrite elem_of_difference, elem_of_singleton. tauto.
Qed.

Lemma others_activate c l :
  c <> "active" ->
  bool_decide (c ∈ Spy.classes (Spy.activate l)) = bool_decide (c ∈ Spy.classes l).
Proof.
  intros Hc. apply bool_decide_ext. simpl.
  rewrite elem_of_union, elem_of_singleton. tauto.
Qed.

Lemma lastHit_snoc xs l :
  lastHit (xs ++ [l])%list =
  match verdict l with Spy.Hit => Some (length xs) | _ => lastHit xs end.
Proof.
  induction xs as [|x xs IH]; simpl.
  - now destruct (verdict l).
  - rewrite IH. destruct (verdict l); try reflexivity.
Qed.

Lemma lastHit_lt xs i : lastHit xs = Some i -> i < length xs.
Proof.
  revert i. induction xs as [|x xs IH]; intros i H; [discriminate|].
  simpl in H. destruct (lastHit xs) as [i0|].
  - inversion H; subst. specialize (IH i0 eq_refl). simpl. lia.
  - destruct (verdict x); inversion H; subst; simpl; lia.
Qed.

(** The state of the menu when the first [k] links have been visited. *)
Lemma visited_links (links : list Spy.Link) :
  Forall (fun l => verdict l <> Spy.Abort) links ->
  forall k, k <= length links ->
    snd (fold_left visit (seq 0 k) (links, false)) = false /\
    length (fst (fold_left visit (seq 0 k) (links, false))) = length links /\
    forall j l f,
      links !! j = Some l ->
      fst (fold_left visit (seq 0 k) (links, false)) !! j = Some f ->
      Spy.hash f = Spy.hash l /\
      (forall c, c <> "active" ->
         bool_decide (c ∈ Spy.classes f) = bool_decide (c ∈ Spy.classes l)) /\
      Spy.isActive f = expected links k j l.
Proof.
  intros Hok. induction k as [|k IH]; intros Hk.
  - simpl. split; [reflexivity|]. split; [reflexivity|].
    intros j l f Hl Hf. rewrite Hl in Hf. inversion Hf; subst.
    repeat split; auto.
  - destruct (IH ltac:(lia)) as (Hthrew & Hlen & Hall).
    rewrite seq_S, fold_left_app. simpl.
    set (st := fold_left visit (seq 0 k) (links, false)) in *.
    destruct (lookup_lt_is_Some_2 links k ltac:(lia)) as [lk Hlk].
    destruct (lookup_lt_is_Some_2 (fst st) k ltac:(lia)) as [fk Hfk].
    destruct (Hall k lk fk Hlk Hfk) as (Hh & Hc & Ha).
    assert (Hv : verdict fk = verdict lk) by now apply verdict_hash.
    assert (Hnot : verdict lk <> Spy.Abort).
    { rewrite Forall_forall in Hok. apply Hok. eapply list_elem_of_lookup_2; eauto. }
    assert (Htake : take (S k) links = (take k links ++ [lk])%list) by now apply take_S_r.
    assert (Hlast : lastHit (take (S k) links) =
                    match verdict lk with
                    | Spy.Hit => Some k
                    | _ => lastHit (take k links)
                    end).
    { rewrite Htake, lastHit_snoc, length_take. now replace (k `min` length links) with k by lia. }
    assert (Hlt : forall i, lastHit (take k links) = Some i -> i < k).
    { intros i Hi. apply lastHit_lt in Hi. rewrite length_take in Hi. lia. }
    assert (E : visit st k =
                match verdict lk with
                | Spy.Skip => st
                | Spy.Abort => (fst st, true)
                | Spy.Hit =>
                    (<[k := Spy.activate (Spy.deactivate fk)]> (Spy.deactivate <$> fst st),
                     false)
                | Spy.Miss => (<[k := Spy.deactivate fk]> (fst st), false)
                end).
    { unfold Spy.visit. now rewrite Hthrew, Hfk, Hv. }
    rewrite E. clear E.
    destruct (verdict lk) eqn:Hvk; [ | | | contradiction].
    + (* a link without hash or section is passed over *)
      split; [exact Hthrew|]. split; [exact Hlen|].
      intros j l f Hl Hf. destruct (Hall j l f Hl Hf) as (H1 & H2 & H3).
      repeat split; auto. rewrite H3. unfold Spy.expected. rewrite Hlast.
      destruct (lastHit (take k links)) as [i|]; [reflexivity|].
      destruct (Nat.eq_dec j k) as [->|Hne].
      * rewrite Hlk in Hl. inversion Hl; subst.
        rewrite Nat.ltb_irrefl, (proj2 (Nat.ltb_lt k (S k)) ltac:(lia)), Hvk. reflexivity.
      * destruct (Nat.ltb_spec j k), (Nat.ltb_spec j (S k)); try reflexivity; lia.
    + (* a link in view takes the mark from all and gets it *)
      simpl. split; [reflexivity|]. split; [now rewrite length_insert, length_fmap|].
      intros j l f Hl Hf. unfold Spy.expected. rewrite Hlast.
      destruct (Nat.eq_dec j k) as [->|Hne].
      * rewrite list_lookup_insert_eq in Hf by (rewrite length_fmap; lia).
        inversion Hf; subst. rewrite Hlk in Hl. inversion Hl; subst.
        rewrite isActive_activate, Nat.eqb_refl. repeat split; auto.
        intros c Hcc. rewrite others_activate, others_deactivate by exact Hcc. auto.
      * rewrite list_lookup_insert_ne in Hf by auto.
        rewrite list_lookup_fmap in Hf.
        destruct (fst st !! j) as [f0|] eqn:Hf0; [|discriminate].
        inversion Hf; subst.
        destruct (Hall j l f0 Hl Hf0) as (H1 & H2 & H3).
        rewrite isActive_deactivate, (proj2 (Nat.eqb_neq j k) Hne).
        repeat split; auto.
        intros c Hcc. rewrite others_deactivate by exact Hcc. auto.
    + (* a link out of view loses the mark *)
      simpl. split; [reflexivity|]. split; [now rewrite length_insert|].
      intros j l f Hl Hf. unfold Spy.expected. rewrite Hlast.
      destruct (Nat.eq_dec j k) as [->|Hne].
      * rewrite list_lookup_insert_eq in Hf by lia.
        inversion Hf; subst. rewrite Hlk in Hl. inversion Hl; subst.
        rewrite isActive_deactivate. repeat split; auto.
        -- intros c Hcc. rewrite others_deactivate by exact Hcc. auto.
        -- destruct (lastHit (take k links)) as [i|] eqn:Hi.
           ++ symmetry. apply Nat.eqb_neq. specialize (Hlt i eq_refl). lia.
           ++ rewrite (proj2 (Nat.ltb_lt k (S k)) ltac:(lia)), Hvk. reflexivity.
      * rewrite list_lookup_insert_ne in Hf by auto.
        destruct (Hall j l f Hl Hf) as (H1 & H2 & H3).
        repeat split; auto. rewrite H3. unfold Spy.expected.
        destruct (lastHit (take k links)) as [i|]; [reflexivity|].
        destruct (Nat.ltb_spec j k), (Nat.ltb_spec j (S k)); try reflexivity; lia.
Qed.

(** X12. One pass of the scrollspy in which no lookup throws keeps every
    link's hash and its classes other than [active], and leaves [active] on
    exactly one link, the last one whose section is in view, if there is
    such a link; if there is none, no link with a section is active and the
    links without hash or section keep the mark they had. *)
Theorem scrollspy_marks_the_last_link_in_view
    (links : list Spy.Link) (j : nat) (l f : Spy.Link) :
  Forall (fun l => verdict l <> Spy.Abort) links ->
  links !! j = Some l ->
  fst (navmenuScrollspy links) !! j = Some f ->
  snd (navmenuScrollspy links) = false /\
  length (fst (navmenuScrollspy links)) = length links /\
  Spy.hash f = Spy.hash l /\
  (forall c, c <> "active" ->
     bool_decide (c ∈ Spy.classes f) = bool_decide (c ∈ Spy.classes l)) /\
  Spy.isActive f =
    match lastHit links with
    | Some i => Nat.eqb j i
    | None => Spy.isSkip (verdict l) && Spy.isActive l
    end.
Proof.
  intros Hok Hl Hf.
  destruct (visited_links links Hok (length links) ltac:(lia)) as (H1 & H2 & H3).
  destruct (H3 j l f Hl Hf) as (H4 & H5 & H6).
  repeat split; auto. rewrite H6. unfold Spy.expected. rewrite firstn_all.
  apply lookup_lt_Some in Hl. now rewrite (proj2 (Nat.ltb_lt j (length links)) Hl).
Qed.

End SpyFacts.

Lemma scrollspy_marks_the_last_link_in_view_witness :
  Spy.isActive (Spy.activate (Spy.deactivate {| Spy.hash := "#work"; Spy.classes := ∅ |}))
  = true.
Proof.
  refine (proj2 (proj2 (proj2 (proj2
    (scrollspy_marks_the_last_link_in_view Z Z.add Z.geb Z.leb 200%Z twoSections 400%Z
       threeLinks 1 {| Spy.hash := "#work"; Spy.classes := ∅ |}
       (Spy.activate (Spy.deactivate {| Spy.hash := "#work"; Spy.classes := ∅ |}))
       _ eq_refl eq_refl))))).
  repeat constructor; vm_compute; discriminate.
Defined.

(** ** The portfolio filters *)

Section FilterFacts.

Import Filters.

Lemma marked_mark f : marked (mark f) = true.
Proof.
  unfold marked, mark; simpl. apply bool_decide_eq_true.
  rewrite elem_of_union, elem_of_singleton. tauto.
Qed.

Lemma marked_unmark f : marked (unmark f) = false.
Proof.
  unfold marked, unmark; simpl. apply bool_decide_eq_false.
  rewrite elem_of_difference, elem_of_singleton. tauto.
Qed.

(** What [requested] reads of the filters: their number and attributes. *)
Lemma requested_ext l : forall ready fs fs',
  dataFilter <$> fs = dataFilter <$> fs' ->
  requested ready fs l = requested ready fs' l.
Proof.
  induction l as [|e l IH]; intros ready fs fs' H; [reflexivity|].
  destruct e as [|i]; simpl; [now apply IH|].
  assert (Hi : dataFilter <$> fs !! i = dataFilter <$> fs' !! i)
    by now rewrite <- !list_lookup_fmap, H.
  destruct (fs !! i) as [f|], (fs' !! i) as [f'|]; simpl in Hi; try discriminate.
  - inversion Hi as [Hd]. rewrite Hd. destruct ready; [f_equal|]; now apply IH.
  - now apply IH.
Qed.

(** One click where exactly the filter of position [a] is marked. *)
Lemma onClick_moves_the_mark s a i this :
  (forall j f, filters s !! j = Some f -> marked f = Nat.eqb j a) ->
  a < length (filters s) ->
  filters s !! i = Some this ->
  (forall j f, filters (onClick i s) !! j = Some f -> marked f = Nat.eqb j i) /\
  length (filters (onClick i s)) = length (filters s) /\
  dataFilter <$> filters (onClick i s) = dataFilter <$> filters s /\
  layout (onClick i s) = layout s /\
  arranged (onClick i s) =
    (arranged s ++ if layout s then [dataFilter this] else [])%list.
Proof.
  intros Hone Ha Hi.
  destruct (lookup_lt_is_Some_2 (filters s) a Ha) as [fa Hfa].
  assert (Hfind : list_find (fun f => marked f = true) (filters s) = Some (a, fa)).
  { apply list_find_Some. split; [exact Hfa|]. split.
    - rewrite (Hone a fa Hfa). apply Nat.eqb_refl.
    - intros j y Hy Hlt. rewrite (Hone j y Hy).
      rewrite (proj2 (Nat.eqb_neq j a)) by lia. discriminate. }
  set (fs := alter mark i (<[a := unmark fa]> (filters s))).
  assert (Hfs : filters (onClick i s) = fs).
  { unfold onClick. rewrite Hi, Hfind. now destruct (layout s). }
  assert (Hmarks : forall j f, fs !! j = Some f -> marked f = Nat.eqb j i).
  { intros j f Hf. unfold fs in Hf. rewrite list_lookup_alter in Hf.
    destruct (decide (i = j)) as [->|Hne].
    - destruct (<[a:=unmark fa]> (filters s) !! j) as [x|]; [|discriminate].
      inversion Hf; subst. now rewrite marked_mark, Nat.eqb_refl.
    - rewrite (proj2 (Nat.eqb_neq j i)) by auto.
      rewrite list_lookup_insert in Hf.
      destruct (decide (a = j /\ a < length (filters s))) as [[-> _]|Hn].
      + inversion Hf; subst. apply marked_unmark.
      + rewrite (Hone j f Hf). apply Nat.eqb_neq. intros ->. tauto. }
  assert (Hdata : dataFilter <$> fs = dataFilter <$> filters s).
  { apply list_eq. intros j. rewrite !list_lookup_fmap. unfold fs.
    rewrite list_lookup_alter.
    destruct (decide (i = j)) as [->|Hne].
    - rewrite list_lookup_insert.
      destruct (decide (a = j /\ a < length (filters s))) as [[-> _]|Hn]; simpl.
      + now rewrite Hfa.
      + now destruct (filters s !! j).
    - rewrite list_lookup_insert.
      destruct (decide (a = j /\ a < length (filters s))) as [[-> _]|Hn]; simpl.
      + now rewrite Hfa.
      + reflexivity. }
  rewrite Hfs. repeat split; auto.
  - unfold fs. now rewrite length_alter, length_insert.
  - unfold onClick. rewrite Hi, Hfind. now destruct (layout s).
  - unfold onClick. rewrite Hi, Hfind. destruct (layout s); simpl; [reflexivity|].
    now rewrite app_nil_r.
Qed.

Lemma run_moves_the_mark l : forall s a,
  (forall j f, filters s !! j = Some f -> marked f = Nat.eqb j a) ->
  a < length (filters s) ->
  (forall j f, filters (run s l) !! j = Some f ->
     marked f = Nat.eqb j (lastClicked (length (filters s)) a l)) /\
  arranged (run s l) = (arranged s ++ requested (layout s) (filters s) l)%list.
Proof.
  induction l as [|e l IH]; intros s a Hone Ha.
  - simpl. rewrite app_nil_r. auto.
  - change (run s (e :: l)) with (run (step s e) l).
    destruct e as [|i].
    + destruct (IH (step s ImagesLoaded) a Hone Ha) as (I1 & I2). auto.
    + simpl step. unfold lastClicked. simpl fold_left. fold (lastClicked (length (filters s))).
      destruct (filters s !! i) as [this|] eqn:Hi.
      * pose proof (lookup_lt_Some _ _ _ Hi) as Hlt.
        rewrite (proj2 (Nat.ltb_lt i (length (filters s))) Hlt).
        destruct (onClick_moves_the_mark s a i this Hone Ha Hi) as (C1 & C2 & C3 & C4 & C5).
        destruct (IH (onClick i s) i C1 ltac:(lia)) as (I1 & I2).
        rewrite C2 in I1. split; [exact I1|].
        rewrite I2, C5, C4, (requested_ext l _ _ _ C3), <- app_assoc. simpl. rewrite Hi.
        now destruct (layout s).
      * assert (Hge : (i <? length (filters s))%nat = false).
        { apply Nat.ltb_ge. now apply lookup_ge_None. }
        rewrite Hge.
        assert (E : onClick i s = s) by (unfold onClick; now rewrite Hi).
        rewrite E. destruct (IH s a Hone Ha) as (I1 & I2).
        split; [exact I1|]. rewrite I2. simpl. now rewrite Hi.
Qed.

(** Where no filter is marked a click throws before it does anything. *)
Lemma run_without_mark l : forall s,
  Forall (fun f => marked f = false) (filters s) ->
  filters (run s l) = filters s /\ arranged (run s l) = arranged s.
Proof.
  induction l as [|e l IH]; intros s Hnone; [auto|].
  change (run s (e :: l)) with (run (step s e) l).
  destruct e as [|i].
  - destruct (IH (step s ImagesLoaded) Hnone) as (I1 & I2). auto.
  - assert (E : onClick i s = s).
    { unfold onClick. destruct (filters s !! i); [|reflexivity].
      assert (Hf : list_find (fun f => marked f = true) (filters s) = None).
      { apply list_find_None. eapply Forall_impl; [exact Hnone|].
        simpl. intros f0 Hf0. rewrite Hf0. discriminate. }
      now rewrite Hf. }
    simpl step. rewrite E. now apply IH.
Qed.

End FilterFacts.

(** X13. Where exactly one filter button is marked, after any clicks
    exactly one is: the one clicked last. The layout, though, is asked to
    filter only by the clicks made once the images are loaded: a click
    before that moves the mark and leaves the layout unfiltered. Where no
    filter button is marked to begin with, clicks never mark one and never
    filter. *)
Theorem filter_mark_follows_the_last_click
    (s : Filters.State) (a : nat) (l : list Filters.Event) :
  ((forall j f, Filters.filters s !! j = Some f -> Filters.marked f = Nat.eqb j a) ->
   a < length (Filters.filters s) ->
   (forall j f, Filters.filters (Filters.run s l) !! j = Some f ->
      Filters.marked f =
      Nat.eqb j (Filters.lastClicked (length (Filters.filters s)) a l)) /\
   Filters.arranged (Filters.run s l) =
     (Filters.arranged s
      ++ Filters.requested (Filters.layout s) (Filters.filters s) l)%list) /\
  (Forall (fun f => Filters.marked f = false) (Filters.filters s) ->
   Filters.filters (Filters.run s l) = Filters.filters s /\
   Filters.arranged (Filters.run s l) = Filters.arranged s).
Proof.
  split.
  - intros Hone Ha. now apply run_moves_the_mark.
  - apply run_without_mark.
Qed.

Lemma filter_mark_follows_the_last_click_witness :
  Filters.arranged
    (Filters.run threeFilters [Filters.Click 1; Filters.ImagesLoaded; Filters.Click 2]) =
  [Some ".filter-web"].
Proof.
  refine (proj2 (proj1 (filter_mark_follows_the_last_click threeFilters 0
                          [Filters.Click 1; Filters.ImagesLoaded; Filters.Click 2])
                   _ ltac:(simpl; lia))).
  intros [|[|[|j]]] f H; inversion H; reflexivity.
Defined.
